(** * LiteX-CNC encoder module: a shallow embedding of litexcnc_encoder.c

    The driver decodes, once per control period, the index-pulse register
    and the per-channel counters sent by the FPGA
    ([litexcnc_encoder_process_read]) and packs the index-enable and
    reset-index-pulse registers sent back ([litexcnc_encoder_prepare_write]).

    Conventions of the embedding:
    - C integers are [Z]; the conversions that can wrap are written out
      ([wrap_s32]); C's integer division is [Z.quot].
    - a byte buffer is a [list Z] of values in 0..255, the cursor [*data] is
      an offset into it; a dereference outside the buffer is undefined in
      C and is the error result [None] here.
    - [hal_float_t] is binary64 ([PrimFloat.float]); a local declared
      [float] in the source rounds through binary32 ([to_single]); the
      fields of the absent header that hold reals are [hal_float_t], as
      the data model of the specification gives them.
    - the array [encoder->instances] is a list; it is allocated with
      exactly [num_instances] elements, so [num_instances] is its length. *)

From Stdlib Require Import ZArith Lia Floats.
From stdpp Require Import base numbers option list.

Set Warnings "-inexact-float".

Local Open Scope Z_scope.

(** ** Machine integers *)

Definition INT_MIN : Z := - 2 ^ 31.
Definition INT_MAX : Z := 2 ^ 31 - 1.
Definition UINT_MAX : Z := 2 ^ 32 - 1.

(** Conversion to [int32_t] (two's complement wrap-around). *)
Definition wrap_s32 (z : Z) : Z := ((z + 2 ^ 31) mod 2 ^ 32 - 2 ^ 31)%Z.

(** [be32toh] of the four bytes copied by [memcpy]: whatever the host byte
    order, the result is the big-endian reading of the wire bytes. *)
Definition be32toh (b0 b1 b2 b3 : Z) : Z :=
  Z.lor (Z.shiftl b0 24) (Z.lor (Z.shiftl b1 16) (Z.lor (Z.shiftl b2 8) b3)).

(** ** The header [litexcnc_encoder.h] *)

(** The two macros of the moving average; the header is not part of the
    sources at hand, so they are parameters of the development. *)
Class encoder_header := {
  LITEXCNC_ENCODER_POSITION_AVERAGE_SIZE : nat;
  LITEXCNC_ENCODER_POSITION_AVERAGE_RECIP : float
}.

(** Modelled from the spec: [sizeof(litexcnc_encoder_instance_read_data_t)];
    the struct is declared in the missing header, the spec gives one 32-bit
    signed integer per channel (and the code reads its only member [counts]
    through [be32toh]). *)
Definition sizeof_read_data : Z := 4.

(** [litexcnc_encoder_instance_t], flattened: [hal.pin.*], [hal.param.*],
    [data.*] and [memo.*]. Pins are the values the pin pointers point to. *)
Record litexcnc_encoder_instance_t := mk_instance {
  pin_raw_counts : Z;
  pin_counts : Z;
  pin_reset : bool;
  pin_index_enable : bool;
  pin_index_pulse : bool;
  pin_position : float;
  pin_velocity : float;
  pin_velocity_rpm : float;
  pin_overflow_occurred : bool;
  param_position_scale : float;
  param_x4_mode : bool;
  data_position_scale_recip : float;
  memo_position_scale : float;
  memo_position_reset : Z;
  memo_velocity : list float
}.

(** [litexcnc_encoder_t]. *)
Record litexcnc_encoder_t := mk_encoder {
  instances : list litexcnc_encoder_instance_t;
  memo_period : Z;
  memo_velocity_pointer : nat;
  data_recip_dt : float
}.

Definition num_instances (encoder : litexcnc_encoder_t) : Z :=
  Z.of_nat (length (instances encoder)).

(** Field assignments. *)
Definition set_pin_raw_counts v (i : litexcnc_encoder_instance_t) :=
  mk_instance v (pin_counts i) (pin_reset i) (pin_index_enable i)
    (pin_index_pulse i) (pin_position i) (pin_velocity i) (pin_velocity_rpm i)
    (pin_overflow_occurred i) (param_position_scale i) (param_x4_mode i)
    (data_position_scale_recip i) (memo_position_scale i)
    (memo_position_reset i) (memo_velocity i).
Definition set_pin_counts v (i : litexcnc_encoder_instance_t) :=
  mk_instance (pin_raw_counts i) v (pin_reset i) (pin_index_enable i)
    (pin_index_pulse i) (pin_position i) (pin_velocity i) (pin_velocity_rpm i)
    (pin_overflow_occurred i) (param_position_scale i) (param_x4_mode i)
    (data_position_scale_recip i) (memo_position_scale i)
    (memo_position_reset i) (memo_velocity i).
Definition set_pin_reset v (i : litexcnc_encoder_instance_t) :=
  mk_instance (pin_raw_counts i) (pin_counts i) v (pin_index_enable i)
    (pin_index_pulse i) (pin_position i) (pin_velocity i) (pin_velocity_rpm i)
    (pin_overflow_occurred i) (param_position_scale i) (param_x4_mode i)
    (data_position_scale_recip i) (memo_position_scale i)
    (memo_position_reset i) (memo_velocity i).
Definition set_pin_index_enable v (i : litexcnc_encoder_instance_t) :=
  mk_instance (pin_raw_counts i) (pin_counts i) (pin_reset i) v
    (pin_index_pulse i) (pin_position i) (pin_velocity i) (pin_velocity_rpm i)
    (pin_overflow_occurred i) (param_position_scale i) (param_x4_mode i)
    (data_position_scale_recip i) (memo_position_scale i)
    (memo_position_reset i) (memo_velocity i).
Definition set_pin_index_pulse v (i : litexcnc_encoder_instance_t) :=
  mk_instance (pin_raw_counts i) (pin_counts i) (pin_reset i)
    (pin_index_enable i) v (pin_position i) (pin_velocity i)
    (pin_velocity_rpm i) (pin_overflow_occurred i) (param_position_scale i)
    (param_x4_mode i) (data_position_scale_recip i) (memo_position_scale i)
    (memo_position_reset i) (memo_velocity i).
Definition set_pin_position v (i : litexcnc_encoder_instance_t) :=
  mk_instance (pin_raw_counts i) (pin_counts i) (pin_reset i)
    (pin_index_enable i) (pin_index_pulse i) v (pin_velocity i)
    (pin_velocity_rpm i) (pin_overflow_occurred i) (param_position_scale i)
    (param_x4_mode i) (data_position_scale_recip i) (memo_position_scale i)
    (memo_position_reset i) (memo_velocity i).
Definition set_pin_velocity v (i : litexcnc_encoder_instance_t) :=
  mk_instance (pin_raw_counts i) (pin_counts i) (pin_reset i)
    (pin_index_enable i) (pin_index_pulse i) (pin_position i) v
    (pin_velocity_rpm i) (pin_overflow_occurred i) (param_position_scale i)
    (param_x4_mode i) (data_position_scale_recip i) (memo_position_scale i)
    (memo_position_reset i) (memo_velocity i).
Definition set_pin_velocity_rpm v (i : litexcnc_encoder_instance_t) :=
  mk_instance (pin_raw_counts i) (pin_counts i) (pin_reset i)
    (pin_index_enable i) (pin_index_pulse i) (pin_position i) (pin_velocity i)
    v (pin_overflow_occurred i) (param_position_scale i)
    (param_x4_mode i) (data_position_scale_recip i) (memo_position_scale i)
    (memo_position_reset i) (memo_velocity i).
Definition set_pin_overflow_occurred v (i : litexcnc_encoder_instance_t) :=
  mk_instance (pin_raw_counts i) (pin_counts i) (pin_reset i)
    (pin_index_enable i) (pin_index_pulse i) (pin_position i) (pin_velocity i)
    (pin_velocity_rpm i) v (param_position_scale i)
    (param_x4_mode i) (data_position_scale_recip i) (memo_position_scale i)
    (memo_position_reset i) (memo_velocity i).
Definition set_param_position_scale v (i : litexcnc_encoder_instance_t) :=
  mk_instance (pin_raw_counts i) (pin_counts i) (pin_reset i)
    (pin_index_enable i) (pin_index_pulse i) (pin_position i) (pin_velocity i)
    (pin_velocity_rpm i) (pin_overflow_occurred i) v
    (param_x4_mode i) (data_position_scale_recip i) (memo_position_scale i)
    (memo_position_reset i) (memo_velocity i).
Definition set_data_position_scale_recip v (i : litexcnc_encoder_instance_t) :=
  mk_instance (pin_raw_counts i) (pin_counts i) (pin_reset i)
    (pin_index_enable i) (pin_index_pulse i) (pin_position i) (pin_velocity i)
    (pin_velocity_rpm i) (pin_overflow_occurred i) (param_position_scale i)
    (param_x4_mode i) v (memo_position_scale i)
    (memo_position_reset i) (memo_velocity i).
Definition set_memo_position_scale v (i : litexcnc_encoder_instance_t) :=
  mk_instance (pin_raw_counts i) (pin_counts i) (pin_reset i)
    (pin_index_enable i) (pin_index_pulse i) (pin_position i) (pin_velocity i)
    (pin_velocity_rpm i) (pin_overflow_occurred i) (param_position_scale i)
    (param_x4_mode i) (data_position_scale_recip i) v
    (memo_position_reset i) (memo_velocity i).
Definition set_memo_position_reset v (i : litexcnc_encoder_instance_t) :=
  mk_instance (pin_raw_counts i) (pin_counts i) (pin_reset i)
    (pin_index_enable i) (pin_index_pulse i) (pin_position i) (pin_velocity i)
    (pin_velocity_rpm i) (pin_overflow_occurred i) (param_position_scale i)
    (param_x4_mode i) (data_position_scale_recip i) (memo_position_scale i)
    v (memo_velocity i).
Definition set_memo_velocity v (i : litexcnc_encoder_instance_t) :=
  mk_instance (pin_raw_counts i) (pin_counts i) (pin_reset i)
    (pin_index_enable i) (pin_index_pulse i) (pin_position i) (pin_velocity i)
    (pin_velocity_rpm i) (pin_overflow_occurred i) (param_position_scale i)
    (param_x4_mode i) (data_position_scale_recip i) (memo_position_scale i)
    (memo_position_reset i) v.

(** ** Buffer sizes *)

(** [single_dword_buffer]: the bytes of one bit-packed register. *)
Definition single_dword_buffer (encoder : litexcnc_encoder_t) : Z :=
  ((Z.shiftr (num_instances encoder) 5
    + (if Z.land (num_instances encoder) 31 =? 0 then 0 else 1)) * 4)%Z.

Definition required_write_buffer (encoder : litexcnc_encoder_t) : Z :=
  (single_dword_buffer encoder * 2)%Z.

(** [required_read_buffer]. The unqualified [num_instances] of the source is
    the file-scope counter [static int num_instances], which
    [litexcnc_encoder_init] increments once per module instance; it is the
    first argument here. *)
Definition required_read_buffer (static_num_instances : Z)
    (encoder : litexcnc_encoder_t) : Z :=
  (single_dword_buffer encoder + static_num_instances * sizeof_read_data)%Z.

(** ** The shared registers *)

(** The number of iterations of the three register loops,
    [single_dword_buffer(encoder)*8]. *)
Definition register_bits (encoder : litexcnc_encoder_t) : nat :=
  Z.to_nat (single_dword_buffer encoder * 8).

(** The end of a loop body: the mask moves one bit down; when it becomes
    zero it is reset to 0x80 and the cursor moves to the next byte. *)
Definition next_mask (mask : Z) : Z :=
  if Z.shiftr mask 1 =? 0 then 128 else Z.shiftr mask 1.
Definition next_pos (mask : Z) (pos : nat) : nat :=
  if Z.shiftr mask 1 =? 0 then S pos else pos.

(** The loop of [litexcnc_encoder_process_read] over the index-pulse register;
    [i] counts down from [register_bits] to 1. *)
Fixpoint index_pulse_loop (i : nat) (mask : Z) (buf : list Z) (pos : nat)
    (insts : list litexcnc_encoder_instance_t)
    : option (list litexcnc_encoder_instance_t * nat) :=
  match i with
  | O => Some (insts, pos)
  | S i' =>
      insts' ←
        (if (i <? length insts)%nat then
           byte ← buf !! pos;
           inst ← insts !! i';
           let index_pulse := negb (Z.land byte mask =? 0) in
           let inst :=
             if index_pulse then set_pin_index_enable false inst else inst in
           Some (<[i' := set_pin_index_pulse index_pulse inst]> insts)
         else Some insts);
      index_pulse_loop i' (next_mask mask) buf (next_pos mask pos) insts'
  end.

(** The two loops of [litexcnc_encoder_prepare_write] are the same text up to
    the pin they read ([index_enable], then [index_pulse]); [pin] is that pin. *)
Fixpoint pack_loop (pin : litexcnc_encoder_instance_t -> bool) (i : nat)
    (mask : Z) (buf : list Z) (pos : nat)
    (insts : list litexcnc_encoder_instance_t) : option (list Z * nat) :=
  match i with
  | O => Some (buf, pos)
  | S i' =>
      buf' ←
        (if (i <? length insts)%nat then
           byte ← buf !! pos;
           inst ← insts !! i';
           Some (<[pos := Z.lor byte (if pin inst then mask else 0)]> buf)
         else Some buf);
      pack_loop pin i' (next_mask mask) buf' (next_pos mask pos) insts
  end.

Definition litexcnc_encoder_prepare_write (encoder : litexcnc_encoder_t)
    (buf : list Z) (pos : nat) : option (list Z * nat) :=
  if (num_instances encoder =? 0)%Z then Some (buf, pos)
  else
    '(buf, pos) ← pack_loop pin_index_enable (register_bits encoder) 128
                    buf pos (instances encoder);
    pack_loop pin_index_pulse (register_bits encoder) 128
      buf pos (instances encoder).

(** ** Floating point *)

(** Conversion of a C integer to [double]; exact for every [int32_t] and for
    every value the 64-bit [difference] can take. *)
Definition double_of_int (z : Z) : float :=
  match z with
  | Z0 => 0%float
  | Zpos _ => PrimFloat.of_uint63 (Uint63.of_Z z)
  | Zneg p => (- PrimFloat.of_uint63 (Uint63.of_Z (Zpos p)))%float
  end.

(** A [double] stored in a variable declared [float] and read back: rounding
    to binary32 (24-bit significand, round to nearest even). *)
Definition to_single (x : float) : float :=
  match Prim2SF x with
  | S754_finite s m e =>
      SF2Prim (SpecFloat.binary_normalize 24 128 (cond_Zopp s (Zpos m)) e s)
  | _ => x
  end.

Section Driver.
Context {hdr : encoder_header}.

(** ** One channel of [litexcnc_encoder_process_read] *)

(** The test that guards the division: [scale > -1e-20 && scale < 1e-20]. *)
Definition near_zero (scale : float) : bool :=
  ((- 1e-20 <? scale)%float && (scale <? 1e-20)%float)%bool.

(** The check for a changed [position_scale]. *)
Definition update_position_scale (instance : litexcnc_encoder_instance_t)
    : litexcnc_encoder_instance_t :=
  if negb (param_position_scale instance =? memo_position_scale instance)%float
  then
    let instance :=
      if near_zero (param_position_scale instance)
      then set_param_position_scale 1%float instance
      else instance in
    let instance :=
      set_data_position_scale_recip
        (1 / param_position_scale instance)%float instance in
    set_memo_position_scale (param_position_scale instance) instance
  else instance.

(** [memcpy] of one record from the cursor and its conversion to host order. *)
Definition read_counts (buf : list Z) (pos : nat) : option Z :=
  b0 ← buf !! pos;
  b1 ← buf !! (pos + 1)%nat;
  b2 ← buf !! (pos + 2)%nat;
  b3 ← buf !! (pos + 3)%nat;
  Some (wrap_s32 (be32toh b0 b1 b2 b3)).

(** The roll-over detection on the 64-bit [difference]: the new value of
    [overflow_occurred] and the (possibly compensated) [difference]. *)
Definition rollover (raw_counts counts_old : Z) (x4_mode overflow : bool)
    : bool * Z :=
  let difference := raw_counts - counts_old in
  if (difference <? INT_MIN) || (difference >? INT_MAX) then
    let difference :=
      if difference <? 0 then difference + UINT_MAX
      else difference - UINT_MAX in
    let difference :=
      if negb x4_mode then Z.quot difference 4 else difference in
    (true, difference)
  else (overflow, difference).

(** The position update, with or without index pulse. *)
Definition update_position (counts_old : Z)
    (instance : litexcnc_encoder_instance_t) : litexcnc_encoder_instance_t :=
  if pin_index_pulse instance then
    let instance :=
      set_pin_position
        (double_of_int (pin_counts instance)
         * data_position_scale_recip instance)%float instance in
    set_pin_overflow_occurred false instance
  else
    let '(overflow, difference) :=
      rollover (pin_raw_counts instance) counts_old (param_x4_mode instance)
        (pin_overflow_occurred instance) in
    let instance := set_pin_overflow_occurred overflow instance in
    if pin_overflow_occurred instance then
      set_pin_position
        (pin_position instance
         + double_of_int difference * data_position_scale_recip instance)%float
        instance
    else
      set_pin_position
        (double_of_int (pin_counts instance)
         * data_position_scale_recip instance)%float instance.

(** The summation loop of the running average; [average] is a [float]. *)
Fixpoint average_loop (count j : nat) (velocity : list float)
    (average : float) : option float :=
  match count with
  | O => Some average
  | S count' =>
      v ← velocity !! j;
      average_loop count' (S j) velocity (to_single (average + v)%float)
  end.

(** The velocity update; skipped on an index pulse. The store into
    [memo.velocity] is undefined outside the array. *)
Definition update_velocity (recip_dt position_old : float)
    (velocity_pointer : nat) (instance : litexcnc_encoder_instance_t)
    : option (litexcnc_encoder_instance_t * nat) :=
  if negb (pin_index_pulse instance) then
    if (velocity_pointer <? length (memo_velocity instance))%nat then
      let instance :=
        set_memo_velocity
          (<[velocity_pointer :=
               ((pin_position instance - position_old) * recip_dt)%float]>
             (memo_velocity instance)) instance in
      average ← average_loop LITEXCNC_ENCODER_POSITION_AVERAGE_SIZE 0%nat
                  (memo_velocity instance) 0%float;
      let instance :=
        set_pin_velocity
          (average * LITEXCNC_ENCODER_POSITION_AVERAGE_RECIP)%float instance in
      let instance :=
        set_pin_velocity_rpm (pin_velocity instance * 60)%float instance in
      Some (instance,
            if (LITEXCNC_ENCODER_POSITION_AVERAGE_SIZE <=? velocity_pointer)%nat
            then 0%nat else S velocity_pointer)
    else None
  else Some (instance, velocity_pointer).

(** The received counts are stored, and divided by four outside x4 mode. *)
Definition store_counts (raw : Z) (instance : litexcnc_encoder_instance_t)
    : litexcnc_encoder_instance_t :=
  let instance := set_pin_raw_counts raw instance in
  let instance := set_pin_counts (pin_raw_counts instance) instance in
  if negb (param_x4_mode instance)
  then set_pin_counts (Z.quot (pin_counts instance) 4) instance
  else instance.

(** The reset mechanism; it also replaces the local [counts_old]. *)
Definition reset_mechanism (counts_old : Z)
    (instance : litexcnc_encoder_instance_t)
    : litexcnc_encoder_instance_t * Z :=
  if pin_reset instance then
    let instance := set_pin_overflow_occurred false instance in
    let instance := set_memo_position_reset (pin_counts instance) instance in
    (set_pin_reset false instance, pin_raw_counts instance)
  else (instance, counts_old).

(** [counts -= memo.position_reset], stored back into the [int32_t] pin. *)
Definition apply_reset_offset (instance : litexcnc_encoder_instance_t)
    : litexcnc_encoder_instance_t :=
  set_pin_counts
    (wrap_s32 (pin_counts instance - memo_position_reset instance)) instance.

(** The body of the loop over the instances. *)
Definition process_instance (recip_dt : float) (buf : list Z)
    (velocity_pointer pos : nat) (instance : litexcnc_encoder_instance_t)
    : option (litexcnc_encoder_instance_t * nat * nat) :=
  let instance := update_position_scale instance in
  let counts_old := pin_raw_counts instance in
  raw ← read_counts buf pos;
  let pos := (pos + Z.to_nat sizeof_read_data)%nat in
  let instance := store_counts raw instance in
  let '(instance, counts_old) := reset_mechanism counts_old instance in
  let instance := apply_reset_offset instance in
  let position_old := to_single (pin_position instance) in
  let instance := update_position counts_old instance in
  '(instance, velocity_pointer) ←
    update_velocity recip_dt position_old velocity_pointer instance;
  Some (instance, velocity_pointer, pos).

(** The loop over the instances, in array order; the velocity pointer and
    the cursor are shared by the iterations. *)
Fixpoint instances_loop (recip_dt : float) (buf : list Z)
    (velocity_pointer pos : nat) (insts : list litexcnc_encoder_instance_t)
    : option (list litexcnc_encoder_instance_t * nat * nat) :=
  match insts with
  | [] => Some ([], velocity_pointer, pos)
  | instance :: rest =>
      '(instance', velocity_pointer, pos) ←
        process_instance recip_dt buf velocity_pointer pos instance;
      '(rest', velocity_pointer, pos) ←
        instances_loop recip_dt buf velocity_pointer pos rest;
      Some (instance' :: rest', velocity_pointer, pos)
  end.

(** The check for a changed period. *)
Definition update_period (period : Z) (encoder : litexcnc_encoder_t)
    : litexcnc_encoder_t :=
  if negb (memo_period encoder =? period) then
    mk_encoder (instances encoder) period (memo_velocity_pointer encoder)
      (1 / (double_of_int period * 0.000000001))%float
  else encoder.

Definition litexcnc_encoder_process_read (encoder : litexcnc_encoder_t)
    (buf : list Z) (pos : nat) (period : Z)
    : option (litexcnc_encoder_t * nat) :=
  if num_instances encoder =? 0 then Some (encoder, pos)
  else
    let encoder := update_period period encoder in
    '(insts, pos) ← index_pulse_loop (register_bits encoder) 128 buf pos
                      (instances encoder);
    '(insts, velocity_pointer, pos) ←
      instances_loop (data_recip_dt encoder) buf
        (memo_velocity_pointer encoder) pos insts;
    Some (mk_encoder insts (memo_period encoder) velocity_pointer
            (data_recip_dt encoder), pos).

End Driver.

(** ** Vocabulary of the statements *)

(** Bit [a] of a buffer read MSB first: bit 0 is the 0x80 bit of byte 0. *)
Definition msb_bit (buf : list Z) (a : nat) : bool :=
  Z.testbit (default 0 (buf !! (a / 8)%nat)) (7 - Z.of_nat (a mod 8)).

Definition mask_of (a : nat) : Z := 2 ^ (7 - Z.of_nat (a mod 8)).

Definition pin_at (pin : litexcnc_encoder_instance_t -> bool)
    (insts : list litexcnc_encoder_instance_t) (k : nat) : bool :=
  from_option pin false (insts !! k).

(** The bits set by a register loop that starts at bit address [q] and
    runs [i] iterations: iteration [i'] handles address [q + i - i'] and
    reads instance [i' - 1], provided [i' < num_instances]. *)
Definition loop_hit (q i n a : nat) : bool :=
  (q <=? a)%nat && (a <? q + i)%nat && (q + i - a <? n)%nat.

(** What the index-pulse loop does to the instance that receives bit [b]. *)
Definition decode_bit (b : bool) (inst : litexcnc_encoder_instance_t)
    : litexcnc_encoder_instance_t :=
  set_pin_index_pulse b (if b then set_pin_index_enable false inst else inst).

(** The part of [process_instance] between the read of the record and the
    velocity update, as a function of the decoded [raw] counts: the updated
    instance and the local [position_old]. *)
Definition position_stage (raw : Z) (instance : litexcnc_encoder_instance_t)
    : litexcnc_encoder_instance_t * float :=
  let instance := update_position_scale instance in
  let counts_old := pin_raw_counts instance in
  let instance := store_counts raw instance in
  let '(instance, counts_old) := reset_mechanism counts_old instance in
  let instance := apply_reset_offset instance in
  (update_position counts_old instance, to_single (pin_position instance)).

(** The cursor of channel [k]'s count record in a read buffer that starts
    at [pos]: the index-pulse register comes first. *)
Definition record_offset (encoder : litexcnc_encoder_t) (pos k : nat) : nat :=
  (pos + Z.to_nat (single_dword_buffer encoder) + 4 * k)%nat.

(** [x] is [inst] up to the two index pins, which the register loop writes. *)
Definition same_but_index_pins (x inst : litexcnc_encoder_instance_t) : Prop :=
  x = inst ∨ ∃ b, x = decode_bit b inst.

(** The step of the velocity pointer after a store. *)
Definition next_velocity_pointer {hdr : encoder_header} (p : nat) : nat :=
  if (LITEXCNC_ENCODER_POSITION_AVERAGE_SIZE <=? p)%nat then 0%nat else S p.

(** The scale of a channel is the clamped one, and so are its memo and the
    cached reciprocal. *)
Definition scale_clamped (inst : litexcnc_encoder_instance_t) : Prop :=
  param_position_scale inst = 1%float
  ∧ memo_position_scale inst = 1%float
  ∧ data_position_scale_recip inst = 1%float.

(** The position of [inst'] was computed from that of [inst] with the
    reciprocal [recip]: absolutely from the counts, or incrementally from
    some difference. *)
Definition position_uses_recip (inst inst' : litexcnc_encoder_instance_t)
    (recip : float) : Prop :=
  pin_position inst' = (double_of_int (pin_counts inst') * recip)%float
  ∨ ∃ difference,
      pin_position inst'
      = (pin_position inst + double_of_int difference * recip)%float.

(** ** Example configurations

    Used to instantiate the theorems below. The header macros are taken as
    8 and 0.125 there; an idle channel has scale 1 and a zeroed history. *)

Definition header8 : encoder_header :=
  {| LITEXCNC_ENCODER_POSITION_AVERAGE_SIZE := 8;
     LITEXCNC_ENCODER_POSITION_AVERAGE_RECIP := 0.125%float |}.

Definition idle_instance : litexcnc_encoder_instance_t :=
  mk_instance 0 0 false false false 0%float 0%float 0%float false
    1%float false 1%float 1%float 0 (replicate 8 0%float).

(** An encoder module with the given channels, at a 1 ms period. *)
Definition board (insts : list litexcnc_encoder_instance_t)
    : litexcnc_encoder_t :=
  mk_encoder insts 1000000 0%nat (1 / (double_of_int 1000000 * 0.000000001))%float.

(** A round trip through a shared register: the flags are the
    [index_enable] pins ([reg = false], first outgoing register) or the
    [index_pulse] pins ([reg = true], second outgoing register) of the
    sending channels; [prepare_write] packs them into a zeroed buffer of
    [required_write_buffer] bytes, and the index-pulse loop of
    [process_read] unpacks that register into idle channels. *)
Definition register_round_trip (reg : bool) (flags : list bool)
    : option (list bool) :=
  let sender :=
    board (map (λ f, if reg then set_pin_index_pulse f idle_instance
                     else set_pin_index_enable f idle_instance) flags) in
  let receiver := board (replicate (length flags) idle_instance) in
  '(buf, _) ← litexcnc_encoder_prepare_write sender
                (replicate (Z.to_nat (required_write_buffer sender)) 0) 0;
  '(insts, _) ← index_pulse_loop (register_bits receiver) 128 buf
                  (if reg then Z.to_nat (single_dword_buffer sender) else 0%nat)
                  (instances receiver);
  Some (map pin_index_pulse insts).

(** ** Further vocabulary *)

(** A value a [uint8_t] can hold. *)
Definition is_byte (b : Z) : Prop := 0 <= b < 256.

(** The number four bytes spell when read most significant byte first. *)
Definition be32_value (b0 b1 b2 b3 : Z) : Z :=
  b0 * 2 ^ 24 + b1 * 2 ^ 16 + b2 * 2 ^ 8 + b3.

(** The counts of a tick before the reset offset is applied. *)
Definition pre_offset_counts (x4_mode : bool) (raw : Z) : Z :=
  if x4_mode then raw else Z.quot raw 4.

(** The position a tick that reads [raw] computes for a channel, from the
    channel [inst] as the tick found it and the reciprocal [recip]: the
    increment of the roll-over code times [recip] added to the old
    position when the channel ends the tick with [overflow_occurred] set,
    [counts * recip] otherwise (with or without index pulse). The
    difference is the one [rollover] computes, from the old raw count or,
    on a reset, from [raw] itself. *)
Definition position_computed_with (recip : float) (raw : Z)
    (inst inst' : litexcnc_encoder_instance_t) : Prop :=
  let counts_old := if pin_reset inst then raw else pin_raw_counts inst in
  let overflow :=
    if pin_reset inst then false else pin_overflow_occurred inst in
  let difference :=
    (rollover raw counts_old (param_x4_mode inst) overflow).2 in
  pin_position inst'
  = if pin_overflow_occurred inst'
    then (pin_position inst + double_of_int difference * recip)%float
    else (double_of_int (pin_counts inst') * recip)%float.

(** The modules that can follow [encoder] while the scale of channel [k]
    is left alone. Between two calls of the driver anything may be written
    to the module (pins, parameters and memos of any channel, the period
    memo, the velocity pointer) except the scale of channel [k], its memo
    and its cached reciprocal; and the driver may run any tick that
    returns. The memo and the reciprocal are fields of the driver's own
    data and [process_read] holds their only stores (lines 245-246). *)
Inductive scale_left_alone {hdr : encoder_header} (k : nat)
    (encoder : litexcnc_encoder_t) : litexcnc_encoder_t → Prop :=
  | scale_left_alone_start :
      scale_left_alone k encoder encoder
  | scale_left_alone_write later later' :
      scale_left_alone k encoder later →
      length (instances later') = length (instances later) →
      (∀ x x', instances later !! k = Some x →
               instances later' !! k = Some x' →
               param_position_scale x' = param_position_scale x
               ∧ memo_position_scale x' = memo_position_scale x
               ∧ data_position_scale_recip x'
                 = data_position_scale_recip x) →
      scale_left_alone k encoder later'
  | scale_left_alone_tick later buf pos period later' pos' :
      scale_left_alone k encoder later →
      litexcnc_encoder_process_read later buf pos period
      = Some (later', pos') →
      scale_left_alone k encoder later'.

(** * Facts about the model *)

(** ** Bit addresses and the register loops *)

Lemma succ_div_mod8 (a : nat) :
  (a mod 8 = 7 ∧ S a / 8 = S (a / 8) ∧ S a mod 8 = 0)%nat
  ∨ (a mod 8 < 7 ∧ S a / 8 = a / 8 ∧ S a mod 8 = S (a mod 8))%nat.
Proof.
  pose proof (Nat.div_mod_eq a 8) as Ha.
  pose proof (Nat.mod_upper_bound a 8 ltac:(lia)) as Hr.
  destruct (decide (a mod 8 = 7)%nat) as [E|E]; [left|right].
  - split; [done|].
    assert (S a = 8 * S (a / 8) + 0)%nat as Hs by lia.
    split.
    + symmetry. eapply Nat.div_unique; [|exact Hs]. lia.
    + symmetry. eapply Nat.mod_unique; [|exact Hs]. lia.
  - split; [lia|].
    assert (S a = 8 * (a / 8) + S (a mod 8))%nat as Hs by lia.
    split.
    + symmetry. eapply Nat.div_unique; [|exact Hs]. lia.
    + symmetry. eapply Nat.mod_unique; [|exact Hs]. lia.
Qed.

Lemma next_mask_of (a : nat) : next_mask (mask_of a) = mask_of (S a).
Proof.
  unfold next_mask, mask_of.
  pose proof (Nat.mod_upper_bound a 8 ltac:(lia)) as Hr.
  destruct (succ_div_mod8 a) as [(E & _ & E')|(E & _ & E')]; rewrite E'.
  - rewrite E. reflexivity.
  - assert (a mod 8 = 0 ∨ a mod 8 = 1 ∨ a mod 8 = 2 ∨ a mod 8 = 3
            ∨ a mod 8 = 4 ∨ a mod 8 = 5 ∨ a mod 8 = 6)%nat as H by lia.
    destruct H as [H|[H|[H|[H|[H|[H|H]]]]]]; rewrite H; reflexivity.
Qed.

Lemma next_pos_of (a : nat) : next_pos (mask_of a) (a / 8) = (S a / 8)%nat.
Proof.
  unfold next_pos, mask_of.
  destruct (succ_div_mod8 a) as [(E & E' & _)|(E & E' & _)]; rewrite E'.
  - rewrite E. reflexivity.
  - assert (a mod 8 = 0 ∨ a mod 8 = 1 ∨ a mod 8 = 2 ∨ a mod 8 = 3
            ∨ a mod 8 = 4 ∨ a mod 8 = 5 ∨ a mod 8 = 6)%nat as H by lia.
    destruct H as [H|[H|[H|[H|[H|[H|H]]]]]]; rewrite H; reflexivity.
Qed.

Lemma land_mask_of (byte : Z) (a : nat) :
  negb (Z.land byte (mask_of a) =? 0) = Z.testbit byte (7 - Z.of_nat (a mod 8)).
Proof.
  unfold mask_of.
  pose proof (Nat.mod_upper_bound a 8 ltac:(lia)) as Hr.
  set (j := 7 - Z.of_nat (a mod 8)). assert (0 <= j) as Hj by lia.
  assert (Z.land byte (2 ^ j) = if Z.testbit byte j then 2 ^ j else 0) as ->.
  { apply Z.bits_inj'. intros k Hk. rewrite Z.land_spec, Z.pow2_bits_eqb by done.
    destruct (Z.eqb_spec j k) as [->|Hne].
    - destruct (Z.testbit byte k); [by rewrite Z.pow2_bits_true|by rewrite Z.bits_0].
    - rewrite andb_false_r. destruct (Z.testbit byte j).
      + by rewrite Z.pow2_bits_false.
      + by rewrite Z.bits_0. }
  destruct (Z.testbit byte j); [|done].
  assert (0 < 2 ^ j) by (apply Z.pow_pos_nonneg; lia).
  destruct (Z.eqb_spec (2 ^ j) 0); [exfalso; lia|done].
Qed.

Lemma msb_bit_insert (buf : list Z) (q a : nat) (byte : Z) (flag : bool) :
  buf !! (q / 8)%nat = Some byte →
  msb_bit (<[(q / 8)%nat := Z.lor byte (if flag then mask_of q else 0)]> buf) a
  = msb_bit buf a || ((a =? q)%nat && flag).
Proof.
  intros Hb. unfold msb_bit.
  pose proof (Nat.div_mod_eq a 8) as Ha. pose proof (Nat.div_mod_eq q 8) as Hq.
  pose proof (Nat.mod_upper_bound a 8 ltac:(lia)) as Hra.
  pose proof (Nat.mod_upper_bound q 8 ltac:(lia)) as Hrq.
  destruct (decide (a / 8 = q / 8)%nat) as [E|E].
  - rewrite E, list_lookup_insert_eq by (by eapply lookup_lt_Some).
    rewrite Hb. cbn [from_option id]. rewrite Z.lor_spec. f_equal.
    destruct flag.
    + rewrite andb_true_r. unfold mask_of. rewrite Z.pow2_bits_eqb by lia.
      destruct (Nat.eqb_spec a q) as [->|Hne].
      * by rewrite Z.eqb_refl.
      * destruct (Z.eqb_spec (7 - Z.of_nat (q mod 8)) (7 - Z.of_nat (a mod 8))); [exfalso; lia|done].
    + by rewrite Z.bits_0, andb_false_r.
  - rewrite list_lookup_insert_ne by done.
    destruct (Nat.eqb_spec a q) as [->|Hne]; [done|]. by rewrite orb_false_r.
Qed.

#[local] Arguments Nat.div : simpl never.
#[local] Arguments Nat.modulo : simpl never.
#[local] Arguments mask_of : simpl never.
#[local] Arguments msb_bit : simpl never.

Lemma loop_hit_0 q n a : loop_hit q 0 n a = false.
Proof.
  unfold loop_hit. destruct (Nat.leb_spec q a), (Nat.ltb_spec a (q + 0)); simpl; try done; lia.
Qed.

Lemma loop_hit_S_eq q i n : loop_hit q (S i) n q = (S i <? n)%nat.
Proof.
  unfold loop_hit. replace (q + S i - q)%nat with (S i) by lia.
  destruct (Nat.leb_spec q q), (Nat.ltb_spec q (q + S i)); simpl; try done; lia.
Qed.

Lemma loop_hit_S_ne q i n a : a ≠ q → loop_hit q (S i) n a = loop_hit (S q) i n a.
Proof.
  intros Hne. unfold loop_hit. replace (q + S i)%nat with (S q + i)%nat by lia.
  destruct (Nat.leb_spec q a), (Nat.leb_spec (S q) a); simpl; try done; lia.
Qed.

Lemma loop_hit_S_q q i n : loop_hit (S q) i n q = false.
Proof.
  unfold loop_hit. destruct (Nat.leb_spec (S q) q); simpl; try done; lia.
Qed.

Lemma pack_loop_spec pin insts i : ∀ q buf buf' pos',
  pack_loop pin i (mask_of q) buf (q / 8)%nat insts = Some (buf', pos') →
  pos' = ((q + i) / 8)%nat ∧ length buf' = length buf ∧
  ∀ a, msb_bit buf' a
       = msb_bit buf a
         || (loop_hit q i (length insts) a && pin_at pin insts (q + i - a - 1)).
Proof.
  induction i as [|i IH]; intros q buf buf' pos' H.
  - simpl in H. injection H as <- <-. rewrite Nat.add_0_r.
    repeat split; try done. intros a. by rewrite loop_hit_0, orb_false_r.
  - cbn [pack_loop] in H. rewrite next_mask_of, next_pos_of in H.
    destruct (Nat.ltb_spec (S i) (length insts)) as [Hlt|Hge].
    + destruct (buf !! (q / 8)%nat) as [byte|] eqn:Hb; [|done].
      destruct (insts !! i) as [inst|] eqn:Hi; [|done].
      simpl in H. apply IH in H as (-> & Hlen & Hbits).
      split; [f_equal; lia|]. split; [by rewrite Hlen, length_insert|].
      intros a. rewrite Hbits, msb_bit_insert by done.
      replace (S q + i)%nat with (q + S i)%nat by lia.
      destruct (Nat.eqb_spec a q) as [->|Hne].
      * rewrite loop_hit_S_q, loop_hit_S_eq.
        replace (q + S i - q - 1)%nat with i by lia.
        unfold pin_at. rewrite Hi. simpl.
        destruct (Nat.ltb_spec (S i) (length insts)); [|lia].
        simpl. by rewrite orb_false_r.
      * rewrite (loop_hit_S_ne q) by done. simpl. by rewrite orb_false_r.
    + simpl in H. apply IH in H as (-> & Hlen & Hbits).
      split; [f_equal; lia|]. split; [done|].
      intros a. rewrite Hbits.
      replace (S q + i)%nat with (q + S i)%nat by lia.
      destruct (Nat.eqb_spec a q) as [->|Hne].
      * rewrite loop_hit_S_q, loop_hit_S_eq.
        destruct (Nat.ltb_spec (S i) (length insts)); [lia|done].
      * by rewrite (loop_hit_S_ne q).
Qed.

Lemma msb_bit_lookup buf q byte :
  buf !! (q / 8)%nat = Some byte →
  msb_bit buf q = Z.testbit byte (7 - Z.of_nat (q mod 8)).
Proof. intros H. unfold msb_bit. by rewrite H. Qed.

Lemma index_pulse_loop_spec buf i : ∀ q insts insts' pos',
  index_pulse_loop i (mask_of q) buf (q / 8)%nat insts = Some (insts', pos') →
  pos' = ((q + i) / 8)%nat ∧ length insts' = length insts ∧
  ∀ k, insts' !! k
       = if (k <? i)%nat && (S k <? length insts)%nat
         then decode_bit (msb_bit buf (q + i - 1 - k)) <$> insts !! k
         else insts !! k.
Proof.
  induction i as [|i IH]; intros q insts insts' pos' H.
  - simpl in H. injection H as <- <-. rewrite Nat.add_0_r.
    repeat split; try done.
  - cbn [index_pulse_loop] in H. rewrite next_mask_of, next_pos_of in H.
    destruct (Nat.ltb_spec (S i) (length insts)) as [Hlt|Hge].
    + destruct (buf !! (q / 8)%nat) as [byte|] eqn:Hb; [|done].
      destruct (insts !! i) as [inst|] eqn:Hi; [|done].
      cbn [mbind option_bind] in H. rewrite land_mask_of in H.
      rewrite <- (msb_bit_lookup _ _ _ Hb) in H.
      apply IH in H as (-> & Hlen & Hk). rewrite length_insert in Hlen, Hk.
      split; [f_equal; lia|]. split; [done|].
      intros k. rewrite Hk.
      replace (S q + i)%nat with (q + S i)%nat by lia.
      destruct (Nat.ltb_spec k i) as [Hki|Hki].
      * rewrite list_lookup_insert_ne by lia.
        destruct (Nat.ltb_spec k (S i)); [done|lia].
      * rewrite andb_false_l.
        destruct (decide (k = i)) as [->|Hne].
        -- rewrite list_lookup_insert_eq by lia.
           destruct (Nat.ltb_spec i (S i)); [|lia].
           destruct (Nat.ltb_spec (S i) (length insts)); [|lia].
           replace (q + S i - 1 - i)%nat with q by lia.
           rewrite Hi. done.
        -- rewrite list_lookup_insert_ne by lia.
           destruct (Nat.ltb_spec k (S i)); [lia|done].
    + cbn [mbind option_bind] in H.
      apply IH in H as (-> & Hlen & Hk).
      split; [f_equal; lia|]. split; [done|].
      intros k. rewrite Hk.
      replace (S q + i)%nat with (q + S i)%nat by lia.
      destruct (Nat.ltb_spec k i) as [Hki|Hki].
      * destruct (Nat.ltb_spec k (S i)); [done|lia].
      * destruct (Nat.ltb_spec k (S i)); [|done].
        destruct (Nat.ltb_spec (S k) (length insts)); [lia|done].
Qed.

Lemma index_pulse_loop_total buf i : ∀ q insts,
  (q + i ≤ 8 * length buf)%nat →
  is_Some (index_pulse_loop i (mask_of q) buf (q / 8)%nat insts).
Proof.
  induction i as [|i IH]; intros q insts Hlen; [by eexists|].
  cbn [index_pulse_loop]. rewrite next_mask_of, next_pos_of.
  destruct (Nat.ltb_spec (S i) (length insts)) as [Hlt|Hge].
  - destruct (lookup_lt_is_Some_2 buf (q / 8)%nat) as [byte ->].
    { apply Nat.Div0.div_lt_upper_bound. lia. }
    destruct (lookup_lt_is_Some_2 insts i) as [inst ->]; [lia|].
    cbn [mbind option_bind]. apply IH. lia.
  - cbn [mbind option_bind]. apply IH. lia.
Qed.

Lemma pack_loop_total pin insts i : ∀ q buf,
  (q + i ≤ 8 * length buf)%nat →
  is_Some (pack_loop pin i (mask_of q) buf (q / 8)%nat insts).
Proof.
  induction i as [|i IH]; intros q buf Hlen; [by eexists|].
  cbn [pack_loop]. rewrite next_mask_of, next_pos_of.
  destruct (Nat.ltb_spec (S i) (length insts)) as [Hlt|Hge].
  - destruct (lookup_lt_is_Some_2 buf (q / 8)%nat) as [byte ->].
    { apply Nat.Div0.div_lt_upper_bound. lia. }
    destruct (lookup_lt_is_Some_2 insts i) as [inst ->]; [lia|].
    cbn [mbind option_bind]. apply IH. rewrite length_insert. lia.
  - cbn [mbind option_bind]. apply IH. lia.
Qed.

(** ** The size of a register *)

Lemma single_dword_buffer_ceil encoder :
  single_dword_buffer encoder = (num_instances encoder + 31) / 32 * 4.
Proof.
  unfold single_dword_buffer.
  assert (0 <= num_instances encoder) as Hn by (unfold num_instances; lia).
  rewrite Z.shiftr_div_pow2 by lia.
  change 31 with (Z.ones 5) at 1. rewrite Z.land_ones by lia.
  change (2 ^ 5) with 32.
  destruct (Z.eqb_spec (num_instances encoder mod 32) 0) as [E|E];
    Z.div_mod_to_equations; lia.
Qed.

Lemma register_bits_bytes encoder :
  register_bits encoder = (8 * Z.to_nat (single_dword_buffer encoder))%nat.
Proof.
  unfold register_bits. rewrite single_dword_buffer_ceil.
  assert (0 <= num_instances encoder) as Hn by (unfold num_instances; lia).
  Z.div_mod_to_equations; lia.
Qed.

Lemma register_bits_ge encoder :
  (length (instances encoder) ≤ register_bits encoder)%nat.
Proof.
  unfold register_bits. rewrite single_dword_buffer_ceil.
  unfold num_instances. Z.div_mod_to_equations; lia.
Qed.

#[local] Arguments wrap_s32 : simpl never.
#[local] Arguments be32toh : simpl never.
#[local] Arguments double_of_int : simpl never.
#[local] Arguments to_single : simpl never.
#[local] Arguments Z.quot : simpl never.

Section InstanceFacts.
Context {hdr : encoder_header}.

Lemma update_position_scale_frame inst :
  let inst' := update_position_scale inst in
  pin_index_pulse inst' = pin_index_pulse inst
  ∧ pin_index_enable inst' = pin_index_enable inst
  ∧ pin_reset inst' = pin_reset inst
  ∧ pin_raw_counts inst' = pin_raw_counts inst
  ∧ pin_position inst' = pin_position inst
  ∧ pin_overflow_occurred inst' = pin_overflow_occurred inst
  ∧ param_x4_mode inst' = param_x4_mode inst
  ∧ memo_position_reset inst' = memo_position_reset inst
  ∧ memo_velocity inst' = memo_velocity inst
  ∧ pin_velocity inst' = pin_velocity inst
  ∧ pin_velocity_rpm inst' = pin_velocity_rpm inst.
Proof.
  unfold update_position_scale. repeat case_match; simpl; done.
Qed.

End InstanceFacts.

(** ** One channel: the stages of [process_instance] *)

Section InstanceStages.
Context {hdr : encoder_header}.

Lemma process_instance_stages recip_dt buf ptr pos inst :
  process_instance recip_dt buf ptr pos inst
  = raw ← read_counts buf pos;
    '(inst', ptr') ← update_velocity recip_dt (position_stage raw inst).2 ptr
                       (position_stage raw inst).1;
    Some (inst', ptr', (pos + 4)%nat).
Proof.
  unfold process_instance, position_stage.
  destruct (read_counts buf pos) as [raw|]; [|done].
  cbn [mbind option_bind].
  by destruct (reset_mechanism _ _).
Qed.

Lemma average_loop_total count : ∀ j velocity average,
  (j + count ≤ length velocity)%nat →
  is_Some (average_loop count j velocity average).
Proof.
  induction count as [|count IH]; intros j velocity average Hlen;
    [by eexists|].
  cbn [average_loop].
  destruct (lookup_lt_is_Some_2 velocity j) as [v ->]; [lia|].
  cbn [mbind option_bind]. apply IH. lia.
Qed.

(** The velocity update of a channel without index pulse: inside the array
    it stores, averages and steps the pointer; outside it is undefined. *)
Lemma update_velocity_in_bounds recip_dt position_old ptr inst :
  pin_index_pulse inst = false →
  (ptr < length (memo_velocity inst))%nat →
  (LITEXCNC_ENCODER_POSITION_AVERAGE_SIZE ≤ length (memo_velocity inst))%nat →
  ∃ inst',
    update_velocity recip_dt position_old ptr inst
    = Some (inst', next_velocity_pointer ptr)
    ∧ pin_index_pulse inst' = false
    ∧ length (memo_velocity inst') = length (memo_velocity inst).
Proof.
  intros Hp Hptr Hsize. unfold update_velocity. rewrite Hp. cbn [negb].
  destruct (Nat.ltb_spec ptr (length (memo_velocity inst))); [|lia].
  cbn [memo_velocity set_memo_velocity].
  destruct (average_loop_total LITEXCNC_ENCODER_POSITION_AVERAGE_SIZE 0
              (<[ptr := ((pin_position inst - position_old) * recip_dt)%float]>
                 (memo_velocity inst)) 0%float) as [average ->].
  { rewrite length_insert. lia. }
  cbn [mbind option_bind]. eexists. split; [reflexivity|].
  simpl. by rewrite length_insert.
Qed.

Lemma update_velocity_out_of_bounds recip_dt position_old ptr inst :
  pin_index_pulse inst = false →
  (length (memo_velocity inst) ≤ ptr)%nat →
  update_velocity recip_dt position_old ptr inst = None.
Proof.
  intros Hp Hptr. unfold update_velocity. rewrite Hp. cbn [negb].
  destruct (Nat.ltb_spec ptr (length (memo_velocity inst))); [lia|done].
Qed.

(** What the velocity update leaves alone. *)
Lemma update_velocity_frame recip_dt position_old ptr inst inst' ptr' :
  update_velocity recip_dt position_old ptr inst = Some (inst', ptr') →
  pin_raw_counts inst' = pin_raw_counts inst
  ∧ pin_counts inst' = pin_counts inst
  ∧ pin_reset inst' = pin_reset inst
  ∧ pin_index_enable inst' = pin_index_enable inst
  ∧ pin_index_pulse inst' = pin_index_pulse inst
  ∧ pin_position inst' = pin_position inst
  ∧ pin_overflow_occurred inst' = pin_overflow_occurred inst
  ∧ param_position_scale inst' = param_position_scale inst
  ∧ param_x4_mode inst' = param_x4_mode inst
  ∧ data_position_scale_recip inst' = data_position_scale_recip inst
  ∧ memo_position_scale inst' = memo_position_scale inst
  ∧ memo_position_reset inst' = memo_position_reset inst.
Proof.
  unfold update_velocity. intros H.
  destruct (pin_index_pulse inst) eqn:Hp; cbn [negb] in H.
  - by injection H as <- <-.
  - destruct (_ <? _)%nat; [|done].
    destruct (average_loop _ _ _ _) as [average|]; [|done].
    cbn [mbind option_bind] in H. by injection H as <- <-.
Qed.

Lemma update_velocity_skipped recip_dt position_old ptr inst :
  pin_index_pulse inst = true →
  update_velocity recip_dt position_old ptr inst = Some (inst, ptr).
Proof. intros Hp. unfold update_velocity. by rewrite Hp. Qed.

(** What the position stage leaves alone. *)
Lemma position_stage_frame raw inst :
  let inst' := (position_stage raw inst).1 in
  pin_index_pulse inst' = pin_index_pulse inst
  ∧ pin_index_enable inst' = pin_index_enable inst
  ∧ param_x4_mode inst' = param_x4_mode inst
  ∧ memo_velocity inst' = memo_velocity inst
  ∧ pin_velocity inst' = pin_velocity inst
  ∧ pin_velocity_rpm inst' = pin_velocity_rpm inst
  ∧ pin_raw_counts inst' = raw
  ∧ pin_reset inst' = false.
Proof.
  unfold position_stage.
  destruct (update_position_scale_frame inst)
    as (Hp & He & Hr & _ & _ & _ & Hx & _ & Hv & Hvel & Hrpm).
  rewrite <- Hp, <- He, <- Hx, <- Hv, <- Hvel, <- Hrpm.
  generalize (update_position_scale inst). clear. intros x.
  unfold update_position, rollover, apply_reset_offset, reset_mechanism,
    store_counts.
  destruct x. simpl.
  repeat (case_match; simplify_eq; simpl in * ); done.
Qed.

Lemma process_instance_index_pins recip_dt buf ptr pos inst inst' ptr' pos' :
  process_instance recip_dt buf ptr pos inst = Some (inst', ptr', pos') →
  pin_index_pulse inst' = pin_index_pulse inst
  ∧ pin_index_enable inst' = pin_index_enable inst.
Proof.
  rewrite process_instance_stages. intros H.
  destruct (read_counts buf pos) as [raw|]; [|done].
  cbn [mbind option_bind] in H.
  destruct (update_velocity _ _ _ _) as [[x p]|] eqn:Hv; [|done].
  cbn [mbind option_bind] in H. injection H as <- <- <-.
  apply update_velocity_frame in Hv as (_ & _ & _ & He & Hp & _).
  destruct (position_stage_frame raw inst) as (Hp' & He' & _).
  split; congruence.
Qed.

End InstanceStages.

(** ** [litexcnc_encoder_prepare_write] as a function on bits *)

Lemma mask_of_byte (pos : nat) : mask_of (8 * pos) = 128.
Proof.
  unfold mask_of. rewrite Nat.mul_comm, Nat.Div0.mod_mul. reflexivity.
Qed.

Lemma div_byte (pos : nat) : (8 * pos / 8 = pos)%nat.
Proof. rewrite Nat.mul_comm. apply Nat.div_mul. lia. Qed.

Lemma div_bytes (pos b : nat) : ((8 * pos + 8 * b) / 8 = pos + b)%nat.
Proof. rewrite <- Nat.mul_add_distr_l. apply div_byte. Qed.

Lemma pack_loop_bytes pin insts i pos buf buf' pos' :
  pack_loop pin i 128 buf pos insts = Some (buf', pos') →
  pos' = ((8 * pos + i) / 8)%nat ∧ length buf' = length buf ∧
  ∀ a, msb_bit buf' a
       = msb_bit buf a
         || (loop_hit (8 * pos) i (length insts) a
             && pin_at pin insts (8 * pos + i - a - 1)).
Proof.
  intros H. apply pack_loop_spec.
  by rewrite mask_of_byte, div_byte.
Qed.

Lemma prepare_write_spec encoder buf pos buf' pos' :
  litexcnc_encoder_prepare_write encoder buf pos = Some (buf', pos') →
  instances encoder ≠ [] →
  let W := register_bits encoder in
  let n := length (instances encoder) in
  pos' = (pos + 2 * Z.to_nat (single_dword_buffer encoder))%nat
  ∧ length buf' = length buf
  ∧ ∀ a, msb_bit buf' a
         = msb_bit buf a
           || (loop_hit (8 * pos) W n a
               && pin_at pin_index_enable (instances encoder)
                    (8 * pos + W - a - 1))
           || (loop_hit (8 * pos + W) W n a
               && pin_at pin_index_pulse (instances encoder)
                    (8 * pos + W + W - a - 1)).
Proof.
  intros H Hne W n. unfold litexcnc_encoder_prepare_write in H.
  destruct (Z.eqb_spec (num_instances encoder) 0) as [E|_].
  { unfold num_instances in E. destruct (instances encoder); [done|].
    simpl in E. lia. }
  destruct (pack_loop pin_index_enable _ _ _ _ _) as [[buf1 pos1]|] eqn:H1;
    [|done].
  cbn [mbind option_bind] in H.
  apply pack_loop_bytes in H1 as (-> & Hlen1 & Hbits1).
  fold W in H, Hbits1 |- *.
  assert (W = 8 * Z.to_nat (single_dword_buffer encoder))%nat as HW
    by apply register_bits_bytes.
  assert ((8 * pos + W) / 8 = pos + Z.to_nat (single_dword_buffer encoder))%nat
    as Hpos1 by (rewrite HW; apply div_bytes).
  rewrite Hpos1 in H.
  apply pack_loop_bytes in H as (-> & Hlen2 & Hbits2).
  replace (8 * (pos + Z.to_nat (single_dword_buffer encoder)))%nat
    with (8 * pos + W)%nat in * by lia.
  split.
  { replace (8 * pos + W + W)%nat
      with (8 * pos + 8 * (2 * Z.to_nat (single_dword_buffer encoder)))%nat
      by lia.
    apply div_bytes. }
  split; [congruence|].
  intros a. by rewrite Hbits2, Hbits1.
Qed.

Lemma prepare_write_total encoder buf pos :
  (pos + Z.to_nat (required_write_buffer encoder) ≤ length buf)%nat →
  is_Some (litexcnc_encoder_prepare_write encoder buf pos).
Proof.
  intros Hlen. unfold litexcnc_encoder_prepare_write.
  destruct (Z.eqb_spec (num_instances encoder) 0) as [E|_]; [by eexists|].
  pose proof (register_bits_bytes encoder) as HW.
  assert (0 <= single_dword_buffer encoder) as Hs.
  { rewrite single_dword_buffer_ceil. unfold num_instances.
    Z.div_mod_to_equations; lia. }
  unfold required_write_buffer in Hlen.
  destruct (pack_loop_total pin_index_enable (instances encoder)
              (register_bits encoder) (8 * pos) buf) as [[buf1 pos1] H1];
    [lia|].
  rewrite mask_of_byte, div_byte in H1. rewrite H1.
  cbn [mbind option_bind].
  apply pack_loop_bytes in H1 as (-> & Hlen1 & _).
  rewrite <- (mask_of_byte ((8 * pos + register_bits encoder) / 8)).
  rewrite <- (div_byte ((8 * pos + register_bits encoder) / 8)) at 2.
  apply pack_loop_total. rewrite HW, div_bytes. lia.
Qed.

Lemma pack_loop_ext pin insts1 insts2 i : ∀ mask buf pos,
  length insts1 = length insts2 →
  (∀ k, (S k < length insts1)%nat → pin <$> insts1 !! k = pin <$> insts2 !! k) →
  pack_loop pin i mask buf pos insts1 = pack_loop pin i mask buf pos insts2.
Proof.
  induction i as [|i IH]; intros mask buf pos Hlen Hpin; [done|].
  cbn [pack_loop]. rewrite <- Hlen.
  destruct (Nat.ltb_spec (S i) (length insts1)) as [Hlt|Hge].
  - pose proof (Hpin i Hlt) as Hi.
    destruct (lookup_lt_is_Some_2 insts1 i) as [x Hx]; [lia|].
    destruct (lookup_lt_is_Some_2 insts2 i) as [y Hy]; [lia|].
    rewrite Hx, Hy in Hi |- *. simpl in Hi. injection Hi as Hpin'.
    destruct (buf !! pos); [|done]. cbn [mbind option_bind].
    rewrite Hpin'. by apply IH.
  - cbn [mbind option_bind]. by apply IH.
Qed.

(** ** [litexcnc_encoder_process_read] through its two loops *)

Section ReadFacts.
Context {hdr : encoder_header}.

Lemma instances_loop_lookup recip_dt buf insts : ∀ ptr pos insts' ptr' pos',
  instances_loop recip_dt buf ptr pos insts = Some (insts', ptr', pos') →
  length insts' = length insts
  ∧ ∀ k inst, insts !! k = Some inst →
      ∃ inst' ptr_k pos_k ptr_k' pos_k',
        process_instance recip_dt buf ptr_k pos_k inst
        = Some (inst', ptr_k', pos_k')
        ∧ insts' !! k = Some inst'.
Proof.
  induction insts as [|x rest IH]; intros ptr pos insts' ptr' pos' H.
  - simpl in H. injection H as <- <- <-. split; [done|]. intros k inst Hk.
    by rewrite lookup_nil in Hk.
  - cbn [instances_loop] in H.
    destruct (process_instance recip_dt buf ptr pos x)
      as [[[x' ptr1] pos1]|] eqn:Hx; [|done].
    cbn [mbind option_bind] in H.
    destruct (instances_loop recip_dt buf ptr1 pos1 rest)
      as [[[rest' ptr2] pos2]|] eqn:Hrest; [|done].
    cbn [mbind option_bind] in H. injection H as <- <- <-.
    apply IH in Hrest as (Hlen & Hk). split; [simpl; by rewrite Hlen|].
    intros [|k] inst Hin.
    + simpl in Hin. injection Hin as <-. by exists x', ptr, pos, ptr1, pos1.
    + simpl in Hin. destruct (Hk k inst Hin) as (i' & a & b & c & d & H1 & H2).
      by exists i', a, b, c, d.
Qed.

Lemma register_bits_update_period period encoder :
  register_bits (update_period period encoder) = register_bits encoder
  ∧ instances (update_period period encoder) = instances encoder
  ∧ memo_velocity_pointer (update_period period encoder)
    = memo_velocity_pointer encoder.
Proof. unfold update_period. by case_match. Qed.

Lemma process_read_inv encoder buf pos period encoder' pos' :
  litexcnc_encoder_process_read encoder buf pos period = Some (encoder', pos') →
  instances encoder ≠ [] →
  ∃ insts1 pos1,
    index_pulse_loop (register_bits encoder) 128 buf pos (instances encoder)
    = Some (insts1, pos1)
    ∧ instances_loop (data_recip_dt (update_period period encoder)) buf
        (memo_velocity_pointer encoder) pos1 insts1
      = Some (instances encoder', memo_velocity_pointer encoder', pos').
Proof.
  intros H Hne. unfold litexcnc_encoder_process_read in H.
  destruct (Z.eqb_spec (num_instances encoder) 0) as [E|_].
  { unfold num_instances in E. destruct (instances encoder); [done|].
    simpl in E. lia. }
  destruct (register_bits_update_period period encoder) as (Hb & Hi & Hp).
  rewrite Hb, Hi, Hp in H.
  destruct (index_pulse_loop _ _ _ _ _) as [[insts1 pos1]|] eqn:H1; [|done].
  cbn [mbind option_bind] in H.
  destruct (instances_loop _ _ _ _ _) as [[[insts2 ptr2] pos2]|] eqn:H2;
    [|done].
  cbn [mbind option_bind] in H. injection H as <- <-.
  by exists insts1, pos1.
Qed.

Lemma index_pulse_loop_bytes buf i pos insts insts' pos' :
  index_pulse_loop i 128 buf pos insts = Some (insts', pos') →
  pos' = ((8 * pos + i) / 8)%nat ∧ length insts' = length insts ∧
  ∀ k, insts' !! k
       = if (k <? i)%nat && (S k <? length insts)%nat
         then decode_bit (msb_bit buf (8 * pos + i - 1 - k)) <$> insts !! k
         else insts !! k.
Proof.
  intros H. apply index_pulse_loop_spec. by rewrite mask_of_byte, div_byte.
Qed.

(** A channel before the last one receives its bit of the index-pulse
    register; the loop over the instances leaves the two index pins alone. *)
Lemma process_read_decoded encoder buf pos period encoder' pos' k inst :
  litexcnc_encoder_process_read encoder buf pos period = Some (encoder', pos') →
  instances encoder !! k = Some inst →
  (S k < length (instances encoder))%nat →
  ∃ inst',
    instances encoder' !! k = Some inst'
    ∧ pin_index_pulse inst'
      = msb_bit buf (8 * pos + register_bits encoder - 1 - k)
    ∧ pin_index_enable inst'
      = pin_index_enable inst
        && negb (msb_bit buf (8 * pos + register_bits encoder - 1 - k)).
Proof.
  intros H Hk Hlt.
  apply process_read_inv in H as (insts1 & pos1 & H1 & H2).
  2: { intros E. rewrite E in Hk. by rewrite lookup_nil in Hk. }
  apply index_pulse_loop_bytes in H1 as (_ & _ & Hdec).
  specialize (Hdec k). rewrite Hk in Hdec.
  pose proof (register_bits_ge encoder) as HW.
  assert ((k <? register_bits encoder)%nat = true) as Hk1
    by (apply Nat.ltb_lt; lia).
  assert ((S k <? length (instances encoder))%nat = true) as Hk2
    by (by apply Nat.ltb_lt).
  rewrite Hk1, Hk2 in Hdec. simpl in Hdec.
  apply instances_loop_lookup in H2 as (_ & Hloop).
  destruct (Hloop _ _ Hdec) as (inst' & a & b & c & d & Hstep & Hk').
  apply process_instance_index_pins in Hstep as (Hp & He).
  exists inst'. split; [done|]. rewrite Hp, He. unfold decode_bit.
  destruct (msb_bit buf _); simpl.
  - by rewrite andb_false_r.
  - by rewrite andb_true_r.
Qed.

End ReadFacts.

Lemma msb_bit_zeros (len a : nat) : msb_bit (replicate len 0) a = false.
Proof.
  unfold msb_bit.
  destruct (replicate len 0 !! (a / 8)%nat) as [b|] eqn:E.
  - apply lookup_replicate in E as [-> _]. apply Z.bits_0.
  - apply Z.bits_0.
Qed.

Lemma register_bits_length e1 e2 :
  length (instances e1) = length (instances e2) →
  register_bits e1 = register_bits e2.
Proof.
  intros H. unfold register_bits, single_dword_buffer, num_instances.
  by rewrite H.
Qed.

(** ** Buffer sizes *)

Lemma required_write_buffer_formula encoder :
  required_write_buffer encoder = 2 * ((num_instances encoder + 31) / 32) * 4.
Proof.
  unfold required_write_buffer. rewrite single_dword_buffer_ceil. lia.
Qed.

(** ** The velocity pointer *)

Section VelocityPointer.
Context {hdr : encoder_header}.

Lemma process_instance_in_bounds recip_dt buf ptr pos inst raw :
  read_counts buf pos = Some raw →
  pin_index_pulse inst = false →
  (ptr < length (memo_velocity inst))%nat →
  (LITEXCNC_ENCODER_POSITION_AVERAGE_SIZE ≤ length (memo_velocity inst))%nat →
  ∃ inst',
    process_instance recip_dt buf ptr pos inst
    = Some (inst', next_velocity_pointer ptr, (pos + 4)%nat)
    ∧ pin_index_pulse inst' = false
    ∧ length (memo_velocity inst') = length (memo_velocity inst).
Proof.
  intros Hraw Hp Hptr Hsize. rewrite process_instance_stages, Hraw.
  cbn [mbind option_bind].
  destruct (position_stage_frame raw inst) as (Hp' & _ & _ & Hv & _).
  destruct (update_velocity_in_bounds recip_dt (position_stage raw inst).2 ptr
              (position_stage raw inst).1) as (inst' & -> & Hp'' & Hlen);
    [congruence| rewrite Hv; lia | rewrite Hv; lia |].
  exists inst'. cbn [mbind option_bind]. rewrite Hlen, Hv. done.
Qed.

Lemma process_instance_out_of_bounds recip_dt buf ptr pos inst :
  pin_index_pulse inst = false →
  (length (memo_velocity inst) ≤ ptr)%nat →
  process_instance recip_dt buf ptr pos inst = None.
Proof.
  intros Hp Hptr. rewrite process_instance_stages.
  destruct (read_counts buf pos) as [raw|]; [|done].
  cbn [mbind option_bind].
  destruct (position_stage_frame raw inst) as (Hp' & _ & _ & Hv & _).
  rewrite update_velocity_out_of_bounds; [done|congruence|].
  rewrite Hv. lia.
Qed.

(** A tick of a module with a single channel: the index-pulse loop does
    not touch it, the loop over the instances runs once. *)
Lemma process_read_single x period ptr recip_dt b0 b1 b2 b3 b4 b5 b6 b7 :
  litexcnc_encoder_process_read (mk_encoder [x] period ptr recip_dt)
    [b0; b1; b2; b3; b4; b5; b6; b7] 0 period
  = '(x', ptr', pos') ← process_instance recip_dt
                          [b0; b1; b2; b3; b4; b5; b6; b7] ptr 4 x;
    Some (mk_encoder [x'] period ptr' recip_dt, pos').
Proof.
  unfold litexcnc_encoder_process_read, update_period.
  cbn [memo_period]. rewrite Z.eqb_refl.
  change (num_instances (mk_encoder [x] period ptr recip_dt) =? 0) with false.
  cbn [negb instances memo_velocity_pointer data_recip_dt].
  change (index_pulse_loop _ 128 [b0; b1; b2; b3; b4; b5; b6; b7] 0 [x])
    with (Some ([x], 4%nat)).
  cbn [mbind option_bind instances_loop].
  destruct (process_instance _ _ _ _ _) as [[[x' ptr'] pos']|]; done.
Qed.

End VelocityPointer.

(** The cursor is stepped inside the loop over the instances: two channels
    without index pulse move it by two in one tick. *)
Lemma velocity_pointer_advances_per_channel :
  memo_velocity_pointer <$>
    (fst <$> litexcnc_encoder_process_read (hdr := header8)
               (board [idle_instance; idle_instance])
               (replicate 12 0) 0 1000000)
  = Some 2%nat.
Proof. vm_compute. reflexivity. Qed.

(** ** The position stage, field by field *)

Section PositionStage.
Context {hdr : encoder_header}.

Lemma store_counts_mk raw a b c d e f g h i j x4 l m n o :
  store_counts raw (mk_instance a b c d e f g h i j x4 l m n o)
  = mk_instance raw (if x4 then raw else Z.quot raw 4) c d e f g h i j x4 l m n o.
Proof. by destruct x4. Qed.

Lemma reset_mechanism_mk counts_old a b c d e f g h i j k l m n o :
  reset_mechanism counts_old (mk_instance a b c d e f g h i j k l m n o)
  = (mk_instance a b false d e f g h (if c then false else i) j k l m
       (if c then b else n) o,
     if c then a else counts_old).
Proof. by destruct c. Qed.

Lemma apply_reset_offset_mk a b c d e f g h i j k l m n o :
  apply_reset_offset (mk_instance a b c d e f g h i j k l m n o)
  = mk_instance a (wrap_s32 (b - n)) c d e f g h i j k l m n o.
Proof. reflexivity. Qed.

Lemma update_position_mk counts_old a b c d e f g h i j k l m n o :
  update_position counts_old (mk_instance a b c d e f g h i j k l m n o)
  = if e then
      mk_instance a b c d e (double_of_int b * l)%float g h false j k l m n o
    else
      let r := rollover a counts_old k i in
      mk_instance a b c d e
        (if r.1 then (f + double_of_int r.2 * l)%float
         else (double_of_int b * l)%float)
        g h r.1 j k l m n o.
Proof.
  unfold update_position. destruct e; [done|].
  cbn [pin_index_pulse pin_raw_counts param_x4_mode pin_overflow_occurred].
  destruct (rollover a counts_old k i) as [[|] d']; reflexivity.
Qed.

Lemma position_stage_spec raw inst :
  let y := update_position_scale inst in
  let x := (position_stage raw inst).1 in
  let c := if param_x4_mode y then raw else Z.quot raw 4 in
  let offset := if pin_reset y then c else memo_position_reset y in
  let counts_old := if pin_reset y then raw else pin_raw_counts y in
  let overflow := if pin_reset y then false else pin_overflow_occurred y in
  let r := rollover raw counts_old (param_x4_mode y) overflow in
  pin_raw_counts x = raw
  ∧ pin_counts x = wrap_s32 (c - offset)
  ∧ pin_reset x = false
  ∧ memo_position_reset x = offset
  ∧ data_position_scale_recip x = data_position_scale_recip y
  ∧ param_position_scale x = param_position_scale y
  ∧ memo_position_scale x = memo_position_scale y
  ∧ (position_stage raw inst).2 = to_single (pin_position y)
  ∧ (pin_index_pulse y = true →
     pin_position x
     = (double_of_int (pin_counts x) * data_position_scale_recip y)%float
     ∧ pin_overflow_occurred x = false)
  ∧ (pin_index_pulse y = false →
     pin_overflow_occurred x = r.1
     ∧ pin_position x
       = if r.1
         then (pin_position y
               + double_of_int r.2 * data_position_scale_recip y)%float
         else (double_of_int (pin_counts x)
               * data_position_scale_recip y)%float).
Proof.
  unfold position_stage. generalize (update_position_scale inst). intros y.
  destruct y as [raw0 counts0 reset0 enable0 pulse0 position0 vel0 rpm0
                   overflow0 scale0 x4 recip0 mscale0 mreset0 mvel0].
  rewrite store_counts_mk, reset_mechanism_mk, apply_reset_offset_mk,
    update_position_mk.
  cbn [pin_raw_counts pin_counts pin_reset pin_index_enable pin_index_pulse
       pin_position pin_velocity pin_velocity_rpm pin_overflow_occurred
       param_position_scale param_x4_mode data_position_scale_recip
       memo_position_scale memo_position_reset memo_velocity fst snd].
  destruct pulse0.
  - cbn [pin_raw_counts pin_counts pin_reset pin_index_enable pin_index_pulse
       pin_position pin_velocity pin_velocity_rpm pin_overflow_occurred
       param_position_scale param_x4_mode data_position_scale_recip
       memo_position_scale memo_position_reset memo_velocity fst snd].
    repeat split; try done.
  - cbn zeta.
    cbn [pin_raw_counts pin_counts pin_reset pin_index_enable pin_index_pulse
       pin_position pin_velocity pin_velocity_rpm pin_overflow_occurred
       param_position_scale param_x4_mode data_position_scale_recip
       memo_position_scale memo_position_reset memo_velocity fst snd].
    repeat split; try done.
Qed.

End PositionStage.

Section ChannelClaims.
Context {hdr : encoder_header}.

Lemma process_instance_inv recip_dt buf ptr pos inst inst' ptr' pos' :
  process_instance recip_dt buf ptr pos inst = Some (inst', ptr', pos') →
  ∃ raw,
    read_counts buf pos = Some raw
    ∧ pos' = (pos + 4)%nat
    ∧ update_velocity recip_dt (position_stage raw inst).2 ptr
        (position_stage raw inst).1 = Some (inst', ptr').
Proof.
  rewrite process_instance_stages. intros H.
  destruct (read_counts buf pos) as [raw|]; [|done].
  cbn [mbind option_bind] in H.
  destruct (update_velocity _ _ _ _) as [[x p]|] eqn:Hv; [|done].
  cbn [mbind option_bind] in H. injection H as <- <- <-.
  by exists raw.
Qed.

(** A channel whose [index_pulse] pin is set when its turn comes. *)
Lemma process_instance_index_pulse recip_dt buf ptr pos inst inst' ptr' pos' :
  process_instance recip_dt buf ptr pos inst = Some (inst', ptr', pos') →
  pin_index_pulse inst = true →
  pin_position inst'
  = (double_of_int (pin_counts inst') * data_position_scale_recip inst')%float
  ∧ pin_overflow_occurred inst' = false
  ∧ memo_velocity inst' = memo_velocity inst
  ∧ pin_velocity inst' = pin_velocity inst
  ∧ pin_velocity_rpm inst' = pin_velocity_rpm inst
  ∧ ptr' = ptr.
Proof.
  intros H Hp. apply process_instance_inv in H as (raw & _ & _ & Hv).
  destruct (position_stage_frame raw inst)
    as (Hp' & _ & _ & Hvel & Hv1 & Hv2 & _).
  rewrite update_velocity_skipped in Hv by congruence.
  injection Hv as <- <-.
  destruct (position_stage_spec raw inst)
    as (_ & _ & _ & _ & Hrecip & _ & _ & _ & Hpulse & _).
  destruct (update_position_scale_frame inst) as (Hy & _).
  destruct Hpulse as [Hpos Hov]; [congruence|].
  rewrite Hrecip. done.
Qed.

End ChannelClaims.

Section RolloverAndReset.
Context {hdr : encoder_header}.

(** What every tick of a channel establishes. *)
Lemma process_instance_after recip_dt buf ptr pos inst inst' ptr' pos' raw :
  read_counts buf pos = Some raw →
  process_instance recip_dt buf ptr pos inst = Some (inst', ptr', pos') →
  pin_raw_counts inst' = raw
  ∧ pin_reset inst' = false
  ∧ pin_index_pulse inst' = pin_index_pulse inst
  ∧ param_x4_mode inst' = param_x4_mode inst.
Proof.
  intros Hraw H. apply process_instance_inv in H as (raw' & Hraw' & _ & Hv).
  rewrite Hraw in Hraw'. injection Hraw' as <-.
  apply update_velocity_frame in Hv
    as (H1 & _ & H3 & _ & H5 & _ & _ & _ & H9 & _).
  destruct (position_stage_frame raw inst)
    as (Hp & _ & Hx & _ & _ & _ & Hr & Hreset).
  repeat split; congruence.
Qed.

(** A tick of a channel without index pulse and without reset request. *)
Lemma process_instance_no_pulse recip_dt buf ptr pos inst inst' ptr' pos' raw :
  read_counts buf pos = Some raw →
  pin_index_pulse inst = false →
  pin_reset inst = false →
  process_instance recip_dt buf ptr pos inst = Some (inst', ptr', pos') →
  let r := rollover raw (pin_raw_counts inst) (param_x4_mode inst)
             (pin_overflow_occurred inst) in
  pin_overflow_occurred inst' = r.1
  ∧ pin_position inst'
    = if r.1
      then (pin_position inst
            + double_of_int r.2 * data_position_scale_recip inst')%float
      else (double_of_int (pin_counts inst')
            * data_position_scale_recip inst')%float.
Proof.
  intros Hraw Hp Hreset H r.
  apply process_instance_inv in H as (raw' & Hraw' & _ & Hv).
  rewrite Hraw in Hraw'. injection Hraw' as <-.
  apply update_velocity_frame in Hv
    as (_ & H2 & _ & _ & _ & H6 & H7 & _ & _ & H10 & _).
  destruct (update_position_scale_frame inst)
    as (Yp & _ & Yr & Yraw & Ypos & Yov & Yx & _).
  destruct (position_stage_spec raw inst)
    as (_ & _ & _ & _ & Hrecip & _ & _ & _ & _ & Hno).
  cbv zeta in Hno. rewrite Yp, Yr, Yraw, Ypos, Yov, Yx, Hreset in Hno.
  destruct (Hno Hp) as [Hov Hpos]. fold r in Hov, Hpos.
  rewrite H7, H6, H10, H2, Hrecip. done.
Qed.

Lemma update_position_scale_one inst :
  param_position_scale inst = 1%float →
  ((param_position_scale inst =? memo_position_scale inst)%float = true →
   data_position_scale_recip inst = 1%float) →
  data_position_scale_recip (update_position_scale inst) = 1%float
  ∧ param_position_scale (update_position_scale inst) = 1%float.
Proof.
  intros Hscale Hmemo. unfold update_position_scale.
  destruct (param_position_scale inst =? memo_position_scale inst)%float;
    cbn [negb].
  - auto.
  - rewrite Hscale.
    change (near_zero 1) with false.
    cbn [set_data_position_scale_recip set_memo_position_scale
         data_position_scale_recip param_position_scale].
    rewrite Hscale. split; reflexivity.
Qed.

Lemma rollover_same raw x4_mode overflow :
  rollover raw raw x4_mode overflow = (overflow, 0).
Proof. unfold rollover. rewrite Z.sub_diag. reflexivity. Qed.

End RolloverAndReset.

Section ScaleClamp.
Context {hdr : encoder_header}.

Lemma update_position_scale_clamps inst :
  (param_position_scale inst =? memo_position_scale inst)%float = false →
  near_zero (param_position_scale inst) = true →
  scale_clamped (update_position_scale inst).
Proof.
  intros Hchanged Hzero. unfold update_position_scale, scale_clamped.
  rewrite Hchanged, Hzero. cbn. repeat split.
Qed.

Lemma update_position_scale_kept inst :
  scale_clamped inst → update_position_scale inst = inst.
Proof.
  intros (Hscale & Hmemo & _). unfold update_position_scale.
  rewrite Hscale, Hmemo. reflexivity.
Qed.

(** A tick computes the position with the reciprocal left by the check of
    the scale, and leaves scale, memo and reciprocal as the check set them. *)
Lemma process_instance_scale recip_dt buf ptr pos inst inst' ptr' pos' :
  process_instance recip_dt buf ptr pos inst = Some (inst', ptr', pos') →
  let y := update_position_scale inst in
  param_position_scale inst' = param_position_scale y
  ∧ memo_position_scale inst' = memo_position_scale y
  ∧ data_position_scale_recip inst' = data_position_scale_recip y
  ∧ position_uses_recip inst inst' (data_position_scale_recip y).
Proof.
  intros H y. apply process_instance_inv in H as (raw & _ & _ & Hv).
  apply update_velocity_frame in Hv
    as (_ & H2 & _ & _ & _ & H6 & _ & H8 & _ & H10 & H11 & _).
  destruct (update_position_scale_frame inst)
    as (_ & _ & _ & _ & Ypos & _).
  destruct (position_stage_spec raw inst)
    as (_ & _ & _ & _ & Hrecip & Hscale & Hmemo & _ & Hpulse & Hno).
  fold y in Hrecip, Hscale, Hmemo, Hpulse, Hno, Ypos.
  repeat split; try congruence.
  unfold position_uses_recip. rewrite H6, H2.
  destruct (pin_index_pulse y).
  - left. by destruct Hpulse.
  - destruct Hno as [_ Hpos]; [done|]. cbv zeta in Hpos.
    destruct (rollover _ _ _ _).1; [right|left]; [|done].
    rewrite Ypos in Hpos. eauto.
Qed.

End ScaleClamp.

(** ** One channel within a tick *)

Section TickFacts.
Context {hdr : encoder_header}.

Lemma instances_loop_channel recip_dt buf insts : ∀ ptr pos insts' ptr' pos',
  instances_loop recip_dt buf ptr pos insts = Some (insts', ptr', pos') →
  ∀ k inst, insts !! k = Some inst →
    ∃ inst' ptr_k ptr_k',
      process_instance recip_dt buf ptr_k (pos + 4 * k) inst
      = Some (inst', ptr_k', (pos + 4 * k + 4)%nat)
      ∧ insts' !! k = Some inst'.
Proof.
  induction insts as [|x rest IH]; intros ptr pos insts' ptr' pos' H k inst Hk.
  - by rewrite lookup_nil in Hk.
  - cbn [instances_loop] in H.
    destruct (process_instance recip_dt buf ptr pos x)
      as [[[x' ptr1] pos1]|] eqn:Hx; [|done].
    cbn [mbind option_bind] in H.
    destruct (instances_loop recip_dt buf ptr1 pos1 rest)
      as [[[rest' ptr2] pos2]|] eqn:Hrest; [|done].
    cbn [mbind option_bind] in H. injection H as <- <- <-.
    pose proof Hx as Hx0.
    apply process_instance_inv in Hx0 as (_ & _ & -> & _).
    destruct k as [|k].
    + simpl in Hk. injection Hk as <-.
      exists x', ptr, ptr1. rewrite Nat.mul_0_r, Nat.add_0_r. done.
    + simpl in Hk.
      destruct (IH _ _ _ _ _ Hrest k inst Hk) as (i' & a & b & Hstep & Hlook).
      exists i', a, b. split; [|done].
      replace (pos + 4 * S k)%nat with (pos + 4 + 4 * k)%nat by lia. done.
Qed.

(** Channel [k] in a tick: the register loop changes at most its index
    pins, then the body of the instance loop runs on it at its record. *)
Lemma process_read_channel encoder buf pos period encoder' pos' k inst inst' :
  litexcnc_encoder_process_read encoder buf pos period = Some (encoder', pos') →
  instances encoder !! k = Some inst →
  instances encoder' !! k = Some inst' →
  ∃ x recip_dt ptr_k ptr_k',
    same_but_index_pins x inst
    ∧ process_instance recip_dt buf ptr_k (record_offset encoder pos k) x
      = Some (inst', ptr_k', (record_offset encoder pos k + 4)%nat).
Proof.
  intros H Hk Hk'.
  apply process_read_inv in H as (insts1 & pos1 & H1 & H2).
  2: { intros E. rewrite E in Hk. by rewrite lookup_nil in Hk. }
  apply index_pulse_loop_bytes in H1 as (-> & _ & Hdec).
  rewrite register_bits_bytes, div_bytes in H2.
  specialize (Hdec k). rewrite Hk in Hdec.
  assert (∃ x, insts1 !! k = Some x ∧ same_but_index_pins x inst)
    as (x & Hx & Hsame).
  { destruct (_ && _).
    - eexists. split; [exact Hdec|]. right. eauto.
    - exists inst. split; [done|]. by left. }
  destruct (instances_loop_channel _ _ _ _ _ _ _ _ H2 k x Hx)
    as (x' & a & b & Hstep & Hx').
  rewrite Hk' in Hx'. injection Hx' as <-.
  by exists x, (data_recip_dt (update_period period encoder)), a, b.
Qed.

Lemma same_but_index_pins_frame x inst :
  same_but_index_pins x inst →
  pin_raw_counts x = pin_raw_counts inst
  ∧ pin_reset x = pin_reset inst
  ∧ pin_position x = pin_position inst
  ∧ pin_overflow_occurred x = pin_overflow_occurred inst
  ∧ param_position_scale x = param_position_scale inst
  ∧ param_x4_mode x = param_x4_mode inst
  ∧ data_position_scale_recip x = data_position_scale_recip inst
  ∧ memo_position_scale x = memo_position_scale inst.
Proof.
  intros [->|[b ->]]; [done|]. unfold decode_bit. by destruct b.
Qed.

Lemma process_read_length encoder buf pos period encoder' pos' :
  litexcnc_encoder_process_read encoder buf pos period = Some (encoder', pos') →
  length (instances encoder') = length (instances encoder).
Proof.
  intros H. destruct (decide (instances encoder = [])) as [E|Hne].
  - unfold litexcnc_encoder_process_read, num_instances in H.
    rewrite E in H. simpl in H. injection H as <- <-. done.
  - apply process_read_inv in H as (insts1 & pos1 & H1 & H2); [|done].
    apply index_pulse_loop_bytes in H1 as (_ & Hlen1 & _).
    apply instances_loop_lookup in H2 as (Hlen2 & _). congruence.
Qed.

Lemma record_offset_length e1 e2 pos k :
  length (instances e1) = length (instances e2) →
  record_offset e1 pos k = record_offset e2 pos k.
Proof.
  intros H. unfold record_offset, single_dword_buffer, num_instances.
  by rewrite H.
Qed.

End TickFacts.

Section InstanceScenarios.
Context {hdr : encoder_header}.

(** The reset mechanism on a channel with scale 1.0 and no index pulse. *)
Lemma process_instance_reset recip_dt buf ptr pos inst inst' ptr' pos' raw :
  read_counts buf pos = Some raw →
  pin_reset inst = true →
  pin_index_pulse inst = false →
  param_position_scale inst = 1%float →
  ((param_position_scale inst =? memo_position_scale inst)%float = true →
   data_position_scale_recip inst = 1%float) →
  process_instance recip_dt buf ptr pos inst = Some (inst', ptr', pos') →
  pin_overflow_occurred inst' = false
  ∧ memo_position_reset inst'
    = (if param_x4_mode inst then raw else Z.quot raw 4)
  ∧ pin_counts inst' = 0
  ∧ pin_position inst' = 0%float
  ∧ pin_reset inst' = false.
Proof.
  intros Hraw Hreset Hp Hscale Hmemo H.
  apply process_instance_inv in H as (raw' & Hraw' & _ & Hv).
  rewrite Hraw in Hraw'. injection Hraw' as <-.
  apply update_velocity_frame in Hv
    as (_ & H2 & H3 & _ & _ & H6 & H7 & _ & _ & _ & _ & H12).
  destruct (update_position_scale_frame inst)
    as (Yp & _ & Yr & _ & _ & _ & Yx & _).
  destruct (update_position_scale_one inst Hscale Hmemo) as [Yrecip _].
  destruct (position_stage_spec raw inst)
    as (_ & Hcounts & Hres & Hoffset & _ & _ & _ & _ & _ & Hno).
  cbv zeta in Hno, Hcounts, Hoffset.
  destruct Hno as [Hov Hpos]; [by rewrite Yp|].
  rewrite Yr, Yx, Hreset in Hcounts, Hoffset, Hov, Hpos.
  rewrite Z.sub_diag in Hcounts. change (wrap_s32 0) with 0 in Hcounts.
  rewrite rollover_same in Hov, Hpos. cbn [fst snd] in Hov, Hpos.
  rewrite Hcounts, Yrecip in Hpos.
  change (double_of_int 0 * 1)%float with 0%float in Hpos.
  rewrite H7, H12, H2, H6, H3. done.
Qed.

(** The clamp of a changed, near-zero scale. *)
Lemma process_instance_clamps recip_dt buf ptr pos inst inst' ptr' pos' :
  (param_position_scale inst =? memo_position_scale inst)%float = false →
  near_zero (param_position_scale inst) = true →
  process_instance recip_dt buf ptr pos inst = Some (inst', ptr', pos') →
  scale_clamped inst' ∧ position_uses_recip inst inst' 1%float.
Proof.
  intros Hchanged Hzero H.
  destruct (update_position_scale_clamps inst Hchanged Hzero)
    as (Yscale & Ymemo & Yrecip).
  apply process_instance_scale in H as (Hs & Hm & Hr & Hpos).
  rewrite Yrecip in Hpos, Hr. rewrite Yscale in Hs. rewrite Ymemo in Hm.
  done.
Qed.

(** A clamped scale stays clamped through a tick that finds it so. *)
Lemma process_instance_keeps_clamp recip_dt buf ptr pos inst inst' ptr' pos' :
  scale_clamped inst →
  process_instance recip_dt buf ptr pos inst = Some (inst', ptr', pos') →
  scale_clamped inst' ∧ position_uses_recip inst inst' 1%float.
Proof.
  intros Hclamped H.
  apply process_instance_scale in H as (Hs & Hm & Hr & Hpos).
  rewrite update_position_scale_kept in Hs, Hm, Hr, Hpos by done.
  destruct Hclamped as (Hs0 & Hm0 & Hr0). rewrite Hr0 in Hpos.
  unfold scale_clamped. repeat split; congruence.
Qed.

End InstanceScenarios.

(** ** When a tick returns *)

Section TickReturns.
Context {hdr : encoder_header}.

Lemma read_counts_total buf pos :
  (pos + 4 ≤ length buf)%nat → is_Some (read_counts buf pos).
Proof.
  intros Hlen. unfold read_counts.
  destruct (lookup_lt_is_Some_2 buf pos) as [b0 ->]; [lia|].
  destruct (lookup_lt_is_Some_2 buf (pos + 1)) as [b1 ->]; [lia|].
  destruct (lookup_lt_is_Some_2 buf (pos + 2)) as [b2 ->]; [lia|].
  destruct (lookup_lt_is_Some_2 buf (pos + 3)) as [b3 ->]; [lia|].
  by eexists.
Qed.

Lemma process_instance_total recip_dt buf ptr pos inst :
  (pos + 4 ≤ length buf)%nat →
  length (memo_velocity inst) = LITEXCNC_ENCODER_POSITION_AVERAGE_SIZE →
  (ptr < LITEXCNC_ENCODER_POSITION_AVERAGE_SIZE)%nat →
  ∃ inst' ptr',
    process_instance recip_dt buf ptr pos inst
    = Some (inst', ptr', (pos + 4)%nat)
    ∧ (ptr' ≤ S ptr)%nat
    ∧ length (memo_velocity inst') = LITEXCNC_ENCODER_POSITION_AVERAGE_SIZE.
Proof.
  intros Hbuf Hlen Hptr.
  destruct (read_counts_total buf pos Hbuf) as [raw Hraw].
  destruct (pin_index_pulse inst) eqn:Hp.
  - rewrite process_instance_stages, Hraw. cbn [mbind option_bind].
    destruct (position_stage_frame raw inst) as (Hp' & _ & _ & Hv & _).
    rewrite update_velocity_skipped by congruence.
    cbn [mbind option_bind]. eexists _, _. split; [reflexivity|].
    split; [lia|congruence].
  - destruct (process_instance_in_bounds recip_dt buf ptr pos inst raw)
      as (inst' & Hstep & _ & Hlen'); [done|done|lia|lia|].
    exists inst', (next_velocity_pointer ptr). split; [done|].
    split; [|congruence].
    unfold next_velocity_pointer. case_match; lia.
Qed.

Lemma instances_loop_total recip_dt buf insts : ∀ ptr pos,
  (pos + 4 * length insts ≤ length buf)%nat →
  Forall (λ inst, length (memo_velocity inst)
                  = LITEXCNC_ENCODER_POSITION_AVERAGE_SIZE) insts →
  (ptr + length insts ≤ LITEXCNC_ENCODER_POSITION_AVERAGE_SIZE)%nat →
  is_Some (instances_loop recip_dt buf ptr pos insts).
Proof.
  induction insts as [|x rest IH]; intros ptr pos Hbuf Hvel Hptr;
    [by eexists|].
  cbn [length] in Hbuf, Hptr. apply Forall_cons in Hvel as [Hx Hrest].
  cbn [instances_loop].
  destruct (process_instance_total recip_dt buf ptr pos x)
    as (x' & ptr' & -> & Hptr' & _); [lia|done|lia|].
  cbn [mbind option_bind].
  destruct (IH ptr' (pos + 4)%nat) as [[[rest' ptr2] pos2] ->];
    [lia|done|lia|].
  by eexists.
Qed.

(** A tick returns when the buffer holds the index-pulse register and one
    record per channel, every history has the size of the header, and the
    shared cursor has room for one store per channel. *)
Lemma process_read_total encoder buf pos period :
  (pos + Z.to_nat (single_dword_buffer encoder)
   + 4 * length (instances encoder) ≤ length buf)%nat →
  Forall (λ inst, length (memo_velocity inst)
                  = LITEXCNC_ENCODER_POSITION_AVERAGE_SIZE)
    (instances encoder) →
  (memo_velocity_pointer encoder + length (instances encoder)
   ≤ LITEXCNC_ENCODER_POSITION_AVERAGE_SIZE)%nat →
  is_Some (litexcnc_encoder_process_read encoder buf pos period).
Proof.
  intros Hbuf Hvel Hptr. unfold litexcnc_encoder_process_read.
  destruct (num_instances encoder =? 0); [by eexists|].
  destruct (register_bits_update_period period encoder) as (-> & -> & ->).
  pose proof (register_bits_bytes encoder) as HW.
  destruct (index_pulse_loop_total buf (register_bits encoder) (8 * pos)
              (instances encoder)) as [[insts1 pos1] H1]; [lia|].
  rewrite mask_of_byte, div_byte in H1. rewrite H1.
  cbn [mbind option_bind].
  apply index_pulse_loop_bytes in H1 as (-> & Hlen1 & Hdec).
  rewrite HW, div_bytes.
  destruct (instances_loop_total
              (data_recip_dt (update_period period encoder)) buf insts1
              (memo_velocity_pointer encoder)
              (pos + Z.to_nat (single_dword_buffer encoder))%nat)
    as [[[insts2 ptr2] pos2] ->]; [lia| |lia|by eexists].
  apply Forall_lookup. intros k x Hx. rewrite Hdec in Hx.
  rewrite Forall_lookup in Hvel.
  destruct (instances encoder !! k) as [inst|] eqn:Hk.
  - specialize (Hvel k inst Hk). cbn beta in Hvel.
    destruct (_ && _); simpl in Hx; injection Hx as <-; [|done].
    unfold decode_bit. by destruct (msb_bit _ _).
  - by destruct (_ && _).
Qed.

End TickReturns.

(** ** The scale through a run of ticks *)

Section ScaleHistory.
Context {hdr : encoder_header}.

Lemma update_position_scale_equal inst :
  (param_position_scale inst =? memo_position_scale inst)%float = true →
  update_position_scale inst = inst.
Proof.
  intros H. unfold update_position_scale. rewrite H. reflexivity.
Qed.

(** The position a channel gets in its turn of the instance loop, with the
    reciprocal the channel ends the tick with. *)
Lemma process_instance_position recip_dt buf ptr pos inst inst' ptr' pos' :
  process_instance recip_dt buf ptr pos inst = Some (inst', ptr', pos') →
  ∃ raw,
    read_counts buf pos = Some raw
    ∧ position_computed_with (data_position_scale_recip inst') raw inst inst'.
Proof.
  intros H. apply process_instance_inv in H as (raw & Hraw & _ & Hv).
  exists raw. split; [done|].
  apply update_velocity_frame in Hv
    as (_ & H2 & _ & _ & _ & H6 & H7 & _ & _ & H10 & _).
  destruct (update_position_scale_frame inst)
    as (Yp & _ & Yr & Yraw & Ypos & Yov & Yx & _).
  destruct (position_stage_spec raw inst)
    as (_ & _ & _ & _ & Hrecip & _ & _ & _ & Hpulse & Hno).
  cbv zeta in Hpulse, Hno.
  unfold position_computed_with. rewrite H6, H7, H2, H10, Hrecip.
  destruct (pin_index_pulse inst) eqn:Hp.
  - destruct Hpulse as [Hpos Hov]; [congruence|].
    rewrite Hov. exact Hpos.
  - rewrite Yr, Yraw, Ypos, Yov, Yx in Hno.
    destruct Hno as [Hov Hpos]; [congruence|].
    rewrite Hov. exact Hpos.
Qed.

Lemma process_read_position encoder buf pos period encoder' pos' k inst inst' :
  litexcnc_encoder_process_read encoder buf pos period = Some (encoder', pos') →
  instances encoder !! k = Some inst →
  instances encoder' !! k = Some inst' →
  ∃ raw,
    read_counts buf (record_offset encoder pos k) = Some raw
    ∧ position_computed_with (data_position_scale_recip inst') raw inst inst'.
Proof.
  intros H Hk Hk'.
  destruct (process_read_channel _ _ _ _ _ _ _ _ _ H Hk Hk')
    as (x & rdt & a & b & Hsame & Hstep).
  apply same_but_index_pins_frame in Hsame
    as (Fraw & Freset & Fpos & Fov & _ & Fx4 & _).
  apply process_instance_position in Hstep as (raw & Hraw & Hpos).
  exists raw. split; [done|].
  unfold position_computed_with in Hpos |- *.
  rewrite Freset, Fraw, Fov, Fx4, Fpos in Hpos. exact Hpos.
Qed.

Lemma process_read_clamps encoder buf pos period encoder' pos' k inst inst' :
  litexcnc_encoder_process_read encoder buf pos period = Some (encoder', pos') →
  instances encoder !! k = Some inst →
  instances encoder' !! k = Some inst' →
  (param_position_scale inst =? memo_position_scale inst)%float = false →
  near_zero (param_position_scale inst) = true →
  scale_clamped inst'.
Proof.
  intros H Hk Hk' Hchanged Hzero.
  destruct (process_read_channel _ _ _ _ _ _ _ _ _ H Hk Hk')
    as (x & rdt & a & b & Hsame & Hstep).
  apply same_but_index_pins_frame in Hsame
    as (_ & _ & _ & _ & Fscale & _ & _ & Fmemo).
  apply process_instance_clamps in Hstep as [Hclamped _];
    [done|congruence|congruence].
Qed.

Lemma process_read_keeps_clamp encoder buf pos period encoder' pos' k
    inst inst' :
  litexcnc_encoder_process_read encoder buf pos period = Some (encoder', pos') →
  instances encoder !! k = Some inst →
  instances encoder' !! k = Some inst' →
  scale_clamped inst →
  scale_clamped inst'.
Proof.
  intros H Hk Hk' (Hs & Hm & Hr).
  destruct (process_read_channel _ _ _ _ _ _ _ _ _ H Hk Hk')
    as (x & rdt & a & b & Hsame & Hstep).
  apply same_but_index_pins_frame in Hsame
    as (_ & _ & _ & _ & Fscale & _ & Frecip & Fmemo).
  assert (scale_clamped x) as Hx.
  { unfold scale_clamped. repeat split; congruence. }
  by apply (process_instance_keeps_clamp _ _ _ _ _ _ _ _ Hx) in Hstep as [? _].
Qed.

(** A tick that finds the scale equal to its memo leaves the scale, the
    memo and the cached reciprocal as they are. *)
Lemma process_read_scale_equal encoder buf pos period encoder' pos' k
    inst inst' :
  litexcnc_encoder_process_read encoder buf pos period = Some (encoder', pos') →
  instances encoder !! k = Some inst →
  instances encoder' !! k = Some inst' →
  (param_position_scale inst =? memo_position_scale inst)%float = true →
  param_position_scale inst' = param_position_scale inst
  ∧ memo_position_scale inst' = memo_position_scale inst
  ∧ data_position_scale_recip inst' = data_position_scale_recip inst.
Proof.
  intros H Hk Hk' Hequal.
  destruct (process_read_channel _ _ _ _ _ _ _ _ _ H Hk Hk')
    as (x & rdt & a & b & Hsame & Hstep).
  apply same_but_index_pins_frame in Hsame
    as (_ & _ & _ & _ & Fscale & _ & Frecip & Fmemo).
  apply process_instance_scale in Hstep as (Hs & Hm & Hr & _).
  rewrite update_position_scale_equal in Hs, Hm, Hr by congruence.
  repeat split; congruence.
Qed.

(** The clamped scale is an invariant of every run that leaves the scale
    alone. *)
Lemma scale_left_alone_clamped k encoder later x0 :
  instances encoder !! k = Some x0 →
  scale_clamped x0 →
  scale_left_alone k encoder later →
  ∃ x, instances later !! k = Some x ∧ scale_clamped x.
Proof.
  intros Hk Hc Hrun.
  induction Hrun
    as [|later later' _ (x & Hx & Hcx) Hlen Hsame
        |later buf pos period later' pos' _ (x & Hx & Hcx) Htick].
  - eauto.
  - destruct (lookup_lt_is_Some_2 (instances later') k) as [x' Hx'].
    { rewrite Hlen. by eapply lookup_lt_Some. }
    exists x'. split; [done|].
    destruct (Hsame x x' Hx Hx') as (Hs & Hm & Hr).
    destruct Hcx as (Hs0 & Hm0 & Hr0).
    unfold scale_clamped. repeat split; congruence.
  - destruct (lookup_lt_is_Some_2 (instances later') k) as [x' Hx'].
    { rewrite (process_read_length _ _ _ _ _ _ Htick).
      by eapply lookup_lt_Some. }
    exists x'. split; [done|].
    by eapply process_read_keeps_clamp.
Qed.

End ScaleHistory.

(** * The claims *)

(** C1 (amended). The shared registers are packed MSB first within each
    byte, and the bit of channel [k] is bit [W - 1 - k] of its register
    of [W = register_bits] bits: channel 0 is the last bit of the block
    (the least significant bit of its last byte), not the first. For every
    channel before the last one the same bit is used in both directions:
    [prepare_write] ors the channel's [index_enable] into that bit of the
    first register and its [index_pulse] into that bit of the second, and
    [process_read] decodes that bit of the index-pulse register into the
    channel's [index_pulse] pin. *)
Theorem shared_register_bit_order {hdr : encoder_header} encoder k inst
    wbuf wpos wbuf' wpos' rbuf rpos period encoder' rpos' :
  instances encoder !! k = Some inst →
  (S k < length (instances encoder))%nat →
  litexcnc_encoder_prepare_write encoder wbuf wpos = Some (wbuf', wpos') →
  litexcnc_encoder_process_read encoder rbuf rpos period
  = Some (encoder', rpos') →
  let W := register_bits encoder in
  msb_bit wbuf' (8 * wpos + W - 1 - k)
  = msb_bit wbuf (8 * wpos + W - 1 - k) || pin_index_enable inst
  ∧ msb_bit wbuf' (8 * wpos + W + W - 1 - k)
    = msb_bit wbuf (8 * wpos + W + W - 1 - k) || pin_index_pulse inst
  ∧ ∃ inst', instances encoder' !! k = Some inst'
             ∧ pin_index_pulse inst' = msb_bit rbuf (8 * rpos + W - 1 - k).
Proof.
  intros Hk Hlt Hw Hr W.
  assert (instances encoder ≠ []) as Hne.
  { intros E. rewrite E in Hk. by rewrite lookup_nil in Hk. }
  pose proof (register_bits_ge encoder) as HW. fold W in HW.
  apply prepare_write_spec in Hw as (_ & _ & Hbits); [|done].
  fold W in Hbits.
  assert (∀ q, loop_hit q W (length (instances encoder)) (q + W - 1 - k) = true)
    as Hhit.
  { intros q. unfold loop_hit.
    replace (q + W - (q + W - 1 - k))%nat with (S k) by lia.
    destruct (Nat.leb_spec q (q + W - 1 - k)); [|lia].
    destruct (Nat.ltb_spec (q + W - 1 - k) (q + W)); [|lia].
    destruct (Nat.ltb_spec (S k) (length (instances encoder))); [done|lia]. }
  repeat split.
  - assert (loop_hit (8 * wpos + W) W (length (instances encoder))
              (8 * wpos + W - 1 - k) = false) as Hoff.
    { unfold loop_hit.
      destruct (Nat.leb_spec (8 * wpos + W) (8 * wpos + W - 1 - k)); [lia|done]. }
    rewrite Hbits, Hhit, Hoff.
    replace (8 * wpos + W - (8 * wpos + W - 1 - k) - 1)%nat with k by lia.
    unfold pin_at at 1. rewrite Hk. simpl. by rewrite orb_false_r.
  - assert (loop_hit (8 * wpos) W (length (instances encoder))
              (8 * wpos + W + W - 1 - k) = false) as Hoff.
    { unfold loop_hit.
      destruct (Nat.ltb_spec (8 * wpos + W + W - 1 - k) (8 * wpos + W));
        [lia|]. by rewrite andb_false_r. }
    rewrite Hbits, Hhit, Hoff.
    replace (8 * wpos + W + W - (8 * wpos + W + W - 1 - k) - 1)%nat
      with k by lia.
    unfold pin_at. rewrite Hk. simpl. by rewrite orb_false_r.
  - destruct (process_read_decoded _ _ _ _ _ _ _ _ Hr Hk Hlt)
      as (inst' & Hk' & Hp & _).
    by exists inst'.
Qed.

(** Witness of C1: three channels, channel 0 with [index_enable] set and
    [index_pulse] clear, an incoming index-pulse register with the last bit
    set. *)
Lemma shared_register_bit_order_witness :
  let encoder :=
    board [set_pin_index_enable true idle_instance; idle_instance;
           idle_instance] in
  ∃ wbuf' encoder',
    litexcnc_encoder_prepare_write encoder (replicate 8 0) 0 = Some (wbuf', 8%nat)
    ∧ litexcnc_encoder_process_read (hdr := header8) encoder
        [0; 0; 0; 1; 0; 0; 0; 0; 0; 0; 0; 0; 0; 0; 0; 0] 0 1000000
      = Some (encoder', 16%nat)
    ∧ msb_bit wbuf' 31 = msb_bit (replicate 8 0) 31 || true
    ∧ msb_bit wbuf' 63 = msb_bit (replicate 8 0) 63 || false
    ∧ ∃ inst', instances encoder' !! 0%nat = Some inst'
               ∧ pin_index_pulse inst'
                 = msb_bit [0; 0; 0; 1; 0; 0; 0; 0; 0; 0; 0; 0; 0; 0; 0; 0] 31.
Proof.
  intros encoder. eexists _, _.
  split; [vm_compute; reflexivity|]. split; [vm_compute; reflexivity|].
  apply (shared_register_bit_order (hdr := header8) encoder 0
           (set_pin_index_enable true idle_instance)
           (replicate 8 0) 0 _ 8 _ 0 1000000 _ 16).
  - reflexivity.
  - simpl. lia.
  - vm_compute. reflexivity.
  - vm_compute. reflexivity.
Defined.

(** Counterexample to C1 as stated: with channel 0 on the most significant
    bit of the block, the first bit written would be channel 0's flag; with
    two channels, channel 0 enabled and a zeroed buffer that bit stays 0. *)
Lemma channel_0_not_at_msb :
  ¬ (∀ encoder k inst wbuf wpos wbuf' wpos',
       instances encoder !! k = Some inst →
       (∀ a, msb_bit wbuf a = false) →
       litexcnc_encoder_prepare_write encoder wbuf wpos = Some (wbuf', wpos') →
       msb_bit wbuf' (8 * wpos + k) = pin_index_enable inst).
Proof.
  intros H.
  specialize (H (board [set_pin_index_enable true idle_instance; idle_instance])
                0%nat (set_pin_index_enable true idle_instance)
                (replicate 8 0) 0%nat [0; 0; 0; 1; 0; 0; 0; 0] 8%nat
                eq_refl (msb_bit_zeros 8) eq_refl).
  vm_compute in H. discriminate H.
Qed.

(** C2 (the code departs from the claim). [required_write_buffer] is
    [2 * ceil(n/32) * 4] for every channel count [n]. [required_read_buffer]
    multiplies the record size by the file-scope counter of module
    instances, not by the channel count of the encoder it is asked about:
    for every encoder it is [ceil(n/32)*4 + static_num_instances*4]. On a single
    board with two channels that is 8 bytes, where the claim's formula
    gives 12; [process_read] consumes 12 bytes of that board's buffer and
    runs off the end of an 8-byte one. *)
Theorem required_read_buffer_counts_modules :
  (∀ encoder,
     required_write_buffer encoder
     = 2 * ((num_instances encoder + 31) / 32) * 4)
  ∧ (∀ static_num_instances encoder,
       required_read_buffer static_num_instances encoder
       = (num_instances encoder + 31) / 32 * 4 + static_num_instances * 4)
  ∧ let encoder := board [idle_instance; idle_instance] in
    required_read_buffer 1 encoder = 8
    ∧ (num_instances encoder + 31) / 32 * 4
      + num_instances encoder * sizeof_read_data = 12
    ∧ (snd <$> litexcnc_encoder_process_read (hdr := header8) encoder
                 (replicate 12 0) 0 1000000) = Some 12%nat
    ∧ litexcnc_encoder_process_read (hdr := header8) encoder
        (replicate 8 0) 0 1000000 = None.
Proof.
  split; [exact required_write_buffer_formula|]. split.
  - intros g encoder. unfold required_read_buffer, sizeof_read_data.
    by rewrite single_dword_buffer_ceil.
  - repeat split; vm_compute; reflexivity.
Qed.

(** C3 (the code departs from the claim). For each of the channel counts
    1, 31, 32, 33 and 64, packing the all-true flag vector into either
    outgoing register and unpacking it returns true for every channel but
    the last, whose flag comes back false: the round trip loses the last
    channel. (With no channel both procedures return at once.) *)
Theorem round_trip_loses_last_channel :
  Forall
    (λ n, ∀ reg,
       register_round_trip reg (replicate n true)
       = Some (replicate (n - 1) true ++ [false]))
    [1; 31; 32; 33; 64]%nat
  ∧ ∀ reg, register_round_trip reg [] = Some [].
Proof.
  split.
  - repeat constructor; intros [|]; vm_compute; reflexivity.
  - intros [|]; vm_compute; reflexivity.
Qed.

(** C4. With [n >= 1] channels the register loops never reach channel
    [n - 1]: a run of [process_read] leaves its [index_pulse] and
    [index_enable] pins as they were, and the buffer [prepare_write]
    produces does not change when the two flags of that channel are
    replaced by any other values. *)
Theorem last_channel_untouched {hdr : encoder_header} encoder last
    buf pos period encoder' pos' wbuf wpos enable pulse :
  let n := length (instances encoder) in
  instances encoder !! (n - 1)%nat = Some last →
  litexcnc_encoder_process_read encoder buf pos period = Some (encoder', pos') →
  (∃ last', instances encoder' !! (n - 1)%nat = Some last'
            ∧ pin_index_pulse last' = pin_index_pulse last
            ∧ pin_index_enable last' = pin_index_enable last)
  ∧ litexcnc_encoder_prepare_write
      (mk_encoder
         (<[(n - 1)%nat :=
              set_pin_index_enable enable (set_pin_index_pulse pulse last)]>
            (instances encoder))
         (memo_period encoder) (memo_velocity_pointer encoder)
         (data_recip_dt encoder)) wbuf wpos
    = litexcnc_encoder_prepare_write encoder wbuf wpos.
Proof.
  intros n Hlast Hr.
  assert (instances encoder ≠ []) as Hne.
  { intros E. rewrite E in Hlast. by rewrite lookup_nil in Hlast. }
  assert (0 < n)%nat as Hn.
  { subst n. destruct (instances encoder); [done|simpl; lia]. }
  split.
  - apply process_read_inv in Hr as (insts1 & pos1 & H1 & H2); [|done].
    apply index_pulse_loop_bytes in H1 as (_ & _ & Hdec).
    specialize (Hdec (n - 1)%nat). fold n in Hdec.
    assert ((S (n - 1) <? n)%nat = false) as Hoff by (apply Nat.ltb_ge; lia).
    rewrite Hoff, andb_false_r, Hlast in Hdec.
    apply instances_loop_lookup in H2 as (_ & Hloop).
    destruct (Hloop _ _ Hdec) as (last' & a & b & c & d & Hstep & Hk').
    apply process_instance_index_pins in Hstep as (Hp & He).
    by exists last'.
  - set (insts2 := <[(n - 1)%nat := _]> (instances encoder)).
    assert (length insts2 = length (instances encoder)) as Hlen
      by apply length_insert.
    unfold litexcnc_encoder_prepare_write.
    rewrite (register_bits_length (mk_encoder insts2 _ _ _) encoder) by done.
    unfold num_instances. cbn [instances]. rewrite Hlen.
    case_match; [done|].
    assert (∀ (pin : litexcnc_encoder_instance_t → bool) k,
              (S k < length insts2)%nat →
              pin <$> insts2 !! k = pin <$> instances encoder !! k) as Hext.
    { intros pin k Hk. unfold insts2.
      rewrite list_lookup_insert_ne; [done|]. fold n in Hlen. lia. }
    rewrite (pack_loop_ext pin_index_enable insts2 (instances encoder))
      by auto.
    destruct (pack_loop pin_index_enable _ _ _ _ _) as [[buf1 pos1]|]; [|done].
    cbn [mbind option_bind].
    apply pack_loop_ext; auto.
Qed.

(** Witness of C4: two channels, an index-pulse register with every bit
    set; the last channel keeps its clear pins. *)
Lemma last_channel_untouched_witness :
  let encoder := board [idle_instance; idle_instance] in
  let rbuf := [255; 255; 255; 255; 0; 0; 0; 0; 0; 0; 0; 0] in
  ∃ encoder',
    litexcnc_encoder_process_read (hdr := header8) encoder rbuf 0 1000000
    = Some (encoder', 12%nat)
    ∧ (∃ last', instances encoder' !! 1%nat = Some last'
                ∧ pin_index_pulse last' = false
                ∧ pin_index_enable last' = false)
    ∧ litexcnc_encoder_prepare_write
        (mk_encoder
           (<[1%nat := set_pin_index_enable true
                         (set_pin_index_pulse true idle_instance)]>
              (instances encoder))
           (memo_period encoder) (memo_velocity_pointer encoder)
           (data_recip_dt encoder)) (replicate 8 0) 0
      = litexcnc_encoder_prepare_write encoder (replicate 8 0) 0.
Proof.
  intros encoder rbuf. eexists. split; [vm_compute; reflexivity|].
  apply (last_channel_untouched (hdr := header8) encoder idle_instance
           rbuf 0 1000000 _ 12 (replicate 8 0) 0 true true).
  - reflexivity.
  - vm_compute. reflexivity.
Defined.

(** C5 (the code departs from the claim). Whatever the size [N = S m] of
    the history, a single channel without index pulse whose shared write
    cursor stands at [N - 1] (where [N - 1] ticks from 0 bring it) ends its
    tick with the cursor at [N], outside [0 .. N-1], because the wrap test
    compares the value before the increment; the next tick then stores
    outside the history array. *)
Theorem velocity_pointer_leaves_array (m : nat) (recip recip_dt : float)
    (inst : litexcnc_encoder_instance_t) (period b0 b1 b2 b3 b4 b5 b6 b7 : Z) :
  let hdr :=
    {| LITEXCNC_ENCODER_POSITION_AVERAGE_SIZE := S m;
       LITEXCNC_ENCODER_POSITION_AVERAGE_RECIP := recip |} in
  let channel :=
    set_pin_index_pulse false
      (set_memo_velocity (replicate (S m) 0%float) inst) in
  let encoder := mk_encoder [channel] period m recip_dt in
  let buf := [b0; b1; b2; b3; b4; b5; b6; b7] in
  ∃ encoder',
    litexcnc_encoder_process_read (hdr := hdr) encoder buf 0 period
    = Some (encoder', 8%nat)
    ∧ memo_velocity_pointer encoder' = S m
    ∧ litexcnc_encoder_process_read (hdr := hdr) encoder' buf 0 period = None.
Proof.
  intros hdr channel encoder buf. unfold encoder, buf.
  rewrite process_read_single.
  destruct (process_instance_in_bounds (hdr := hdr) recip_dt
              [b0; b1; b2; b3; b4; b5; b6; b7] m 4 channel
              (wrap_s32 (be32toh b4 b5 b6 b7)))
    as (inst' & Hstep & Hp & Hlen).
  - reflexivity.
  - reflexivity.
  - unfold channel. simpl. rewrite length_replicate. lia.
  - unfold channel. simpl. rewrite length_replicate. lia.
  - rewrite Hstep. cbn [mbind option_bind].
    assert (next_velocity_pointer (hdr := hdr) m = S m) as Hnext.
    { unfold next_velocity_pointer.
      change LITEXCNC_ENCODER_POSITION_AVERAGE_SIZE with (S m).
      destruct (Nat.leb_spec (S m) m); [exfalso; lia|done]. }
    rewrite Hnext. eexists. split; [reflexivity|]. split; [reflexivity|].
    rewrite process_read_single.
    rewrite process_instance_out_of_bounds; [done|done|].
    rewrite Hlen. unfold channel. simpl. rewrite length_replicate. lia.
Qed.

(** C6 (amended). [prepare_write] never writes a padding position: for
    every index [k] from [channel_count] up to the register width, the bit
    of index [k] in either outgoing register is after the call what it was
    before, so the padding is zero exactly when the caller zeroed it. *)
Theorem padding_bits_preserved encoder buf pos buf' pos' k :
  litexcnc_encoder_prepare_write encoder buf pos = Some (buf', pos') →
  (length (instances encoder) ≤ k < register_bits encoder)%nat →
  let W := register_bits encoder in
  msb_bit buf' (8 * pos + W - 1 - k) = msb_bit buf (8 * pos + W - 1 - k)
  ∧ msb_bit buf' (8 * pos + W + W - 1 - k)
    = msb_bit buf (8 * pos + W + W - 1 - k).
Proof.
  intros Hw Hk W.
  destruct (decide (instances encoder = [])) as [E|Hne].
  { unfold litexcnc_encoder_prepare_write, num_instances in Hw.
    rewrite E in Hw. simpl in Hw. by injection Hw as <- <-. }
  apply prepare_write_spec in Hw as (_ & _ & Hbits); [|done].
  fold W in Hbits, Hk.
  assert (∀ q a, (q + W - a = S k)%nat →
            loop_hit q W (length (instances encoder)) a = false) as Hpad.
  { intros q a Ha. unfold loop_hit. rewrite Ha.
    destruct (Nat.ltb_spec (S k) (length (instances encoder))); [lia|].
    by rewrite andb_false_r. }
  split; rewrite Hbits.
  - rewrite (Hpad (8 * pos)%nat) by lia.
    assert (loop_hit (8 * pos + W) W (length (instances encoder))
              (8 * pos + W - 1 - k) = false) as ->.
    { unfold loop_hit.
      destruct (Nat.leb_spec (8 * pos + W) (8 * pos + W - 1 - k)); [lia|done]. }
    simpl. by rewrite !orb_false_r.
  - rewrite (Hpad (8 * pos + W)%nat) by lia.
    assert (loop_hit (8 * pos) W (length (instances encoder))
              (8 * pos + W + W - 1 - k) = false) as ->.
    { unfold loop_hit.
      destruct (Nat.ltb_spec (8 * pos + W + W - 1 - k) (8 * pos + W));
        [lia|]. by rewrite andb_false_r. }
    simpl. by rewrite !orb_false_r.
Qed.

(** Witness of C6: one channel, a buffer of ones; the padding bit of index
    31 (the first bit of either register) is unchanged. *)
Lemma padding_bits_preserved_witness :
  ∃ buf',
    litexcnc_encoder_prepare_write (board [idle_instance]) (replicate 8 255) 0
    = Some (buf', 8%nat)
    ∧ msb_bit buf' 0 = msb_bit (replicate 8 255) 0
    ∧ msb_bit buf' 32 = msb_bit (replicate 8 255) 32.
Proof.
  eexists. split; [vm_compute; reflexivity|].
  apply (padding_bits_preserved (board [idle_instance]) (replicate 8 255) 0
           _ 8 31).
  - vm_compute. reflexivity.
  - vm_compute. lia.
Defined.

(** Counterexample to C6 as stated: one channel and an outgoing buffer
    that holds ones; [prepare_write] returns it as it was, and the padding
    bit of index 31 is still set. *)
Lemma padding_not_zeroed :
  ¬ (∀ encoder buf pos buf' pos' k,
       litexcnc_encoder_prepare_write encoder buf pos = Some (buf', pos') →
       (length (instances encoder) ≤ k < register_bits encoder)%nat →
       msb_bit buf' (8 * pos + register_bits encoder - 1 - k) = false).
Proof.
  intros H.
  assert (length (instances (board [idle_instance])) ≤ 31
          < register_bits (board [idle_instance]))%nat as Hk
    by (vm_compute; lia).
  specialize (H (board [idle_instance]) (replicate 8 255) 0%nat
                (replicate 8 255) 8%nat 31%nat eq_refl Hk).
  vm_compute in H. discriminate H.
Qed.

(** C7. A channel whose record reads [2^31 - 5] on one tick and
    [-(2^31) + 10] on the next, the second tick without index pulse (the
    first tick clears a reset request, if any), ends the second tick with
    [overflow_occurred] set; the 64-bit difference, compensated by adding
    [UINT_MAX] and divided by 4 outside x4 mode, is 14 (x4 mode) or 3, and
    the position is the position after the first tick plus that difference
    times the scale reciprocal. *)
Theorem forward_rollover_detected {hdr : encoder_header}
    encoder buf1 pos1 period1 e1 p1 buf2 pos2 period2 e2 p2 k inst s1 s2 :
  litexcnc_encoder_process_read encoder buf1 pos1 period1 = Some (e1, p1) →
  litexcnc_encoder_process_read e1 buf2 pos2 period2 = Some (e2, p2) →
  instances encoder !! k = Some inst →
  instances e1 !! k = Some s1 →
  instances e2 !! k = Some s2 →
  read_counts buf1 (record_offset encoder pos1 k) = Some (2 ^ 31 - 5) →
  read_counts buf2 (record_offset encoder pos2 k) = Some (- 2 ^ 31 + 10) →
  pin_index_pulse s2 = false →
  let compensated := (- 2 ^ 31 + 10) - (2 ^ 31 - 5) + UINT_MAX in
  let difference :=
    if param_x4_mode s1 then compensated else Z.quot compensated 4 in
  rollover (pin_raw_counts s2) (pin_raw_counts s1) (param_x4_mode s1)
    (pin_overflow_occurred s1) = (true, difference)
  ∧ 0 < difference <= 14
  ∧ pin_overflow_occurred s2 = true
  ∧ pin_position s2
    = (pin_position s1
       + double_of_int difference * data_position_scale_recip s2)%float.
Proof.
  intros H1 H2 Hk Hs1 Hs2 Hraw1 Hraw2 Hpulse compensated difference.
  destruct (process_read_channel _ _ _ _ _ _ _ _ _ H1 Hk Hs1)
    as (x1 & rdt1 & a1 & b1 & _ & Hstep1).
  destruct (process_instance_after _ _ _ _ _ _ _ _ _ Hraw1 Hstep1)
    as (Hr1 & Hreset1 & _).
  destruct (process_read_channel _ _ _ _ _ _ _ _ _ H2 Hs1 Hs2)
    as (x2 & rdt2 & a2 & b2 & Hsame & Hstep2).
  rewrite (record_offset_length e1 encoder) in Hstep2
    by (by eapply process_read_length).
  apply same_but_index_pins_frame in Hsame
    as (Fraw & Freset & Fpos & Fov & _ & Fx4 & _).
  destruct (process_instance_after _ _ _ _ _ _ _ _ _ Hraw2 Hstep2)
    as (Hr2 & _).
  pose proof (process_instance_index_pins _ _ _ _ _ _ _ _ Hstep2) as (Hp2 & _).
  assert (pin_index_pulse x2 = false) as Hx2 by congruence.
  assert (pin_reset x2 = false) as Hreset2 by congruence.
  pose proof (process_instance_no_pulse _ _ _ _ _ _ _ _ _
                Hraw2 Hx2 Hreset2 Hstep2) as Hstep.
  cbv zeta in Hstep. rewrite Fraw, Fx4, Fov, Fpos, Hr1 in Hstep.
  rewrite Hr1, Hr2.
  assert (rollover (- 2 ^ 31 + 10) (2 ^ 31 - 5) (param_x4_mode s1)
            (pin_overflow_occurred s1) = (true, difference)) as Hroll.
  { unfold difference, compensated. by destruct (param_x4_mode s1). }
  rewrite Hroll in Hstep |- *. cbn [fst snd] in Hstep.
  destruct Hstep as [Hov Hpos].
  repeat split; try done.
  - unfold difference, compensated. by destruct (param_x4_mode s1).
  - unfold difference, compensated. by destruct (param_x4_mode s1).
Qed.

(** Witness of C7: channel 0 of two (not in x4 mode) is fed the two
    records on consecutive ticks. *)
Lemma forward_rollover_detected_witness :
  let encoder := board [idle_instance; idle_instance] in
  let buf1 := [0; 0; 0; 0; 127; 255; 255; 251; 0; 0; 0; 0] in
  let buf2 := [0; 0; 0; 0; 128; 0; 0; 10; 0; 0; 0; 0] in
  ∃ e1 e2 s1 s2,
    litexcnc_encoder_process_read (hdr := header8) encoder buf1 0 1000000
    = Some (e1, 12%nat)
    ∧ litexcnc_encoder_process_read (hdr := header8) e1 buf2 0 1000000
      = Some (e2, 12%nat)
    ∧ instances e1 !! 0%nat = Some s1
    ∧ instances e2 !! 0%nat = Some s2
    ∧ rollover (pin_raw_counts s2) (pin_raw_counts s1) (param_x4_mode s1)
        (pin_overflow_occurred s1) = (true, 3)
    ∧ 0 < 3 <= 14
    ∧ pin_overflow_occurred s2 = true
    ∧ pin_position s2
      = (pin_position s1 + double_of_int 3 * data_position_scale_recip s2)%float.
Proof.
  intros encoder buf1 buf2. eexists _, _, _, _.
  split; [vm_compute; reflexivity|]. split; [vm_compute; reflexivity|].
  split; [vm_compute; reflexivity|]. split; [vm_compute; reflexivity|].
  eapply (forward_rollover_detected (hdr := header8) encoder
            buf1 0 1000000 _ 12 buf2 0 1000000 _ 12 0 idle_instance).
  - vm_compute. reflexivity.
  - vm_compute. reflexivity.
  - reflexivity.
  - vm_compute. reflexivity.
  - vm_compute. reflexivity.
  - reflexivity.
  - reflexivity.
  - reflexivity.
Defined.

(** C8. On a tick in which a channel's [index_pulse] is true,
    [process_read] sets its position to [counts * position_scale_recip]
    (the counts and reciprocal of that tick) and clears
    [overflow_occurred], whatever the overflow flag was before; the
    channel's velocity history, [velocity] and [velocity_rpm] are what
    they were before the tick. *)
Theorem index_pulse_reanchors {hdr : encoder_header} encoder buf pos period
    encoder' pos' k inst inst' :
  litexcnc_encoder_process_read encoder buf pos period = Some (encoder', pos') →
  instances encoder !! k = Some inst →
  instances encoder' !! k = Some inst' →
  pin_index_pulse inst' = true →
  pin_position inst'
  = (double_of_int (pin_counts inst') * data_position_scale_recip inst')%float
  ∧ pin_overflow_occurred inst' = false
  ∧ memo_velocity inst' = memo_velocity inst
  ∧ pin_velocity inst' = pin_velocity inst
  ∧ pin_velocity_rpm inst' = pin_velocity_rpm inst.
Proof.
  intros Hr Hk Hk' Hpulse.
  apply process_read_inv in Hr as (insts1 & pos1 & H1 & H2).
  2: { intros E. rewrite E in Hk. by rewrite lookup_nil in Hk. }
  apply index_pulse_loop_bytes in H1 as (_ & _ & Hdec).
  specialize (Hdec k). rewrite Hk in Hdec.
  assert (∃ x, insts1 !! k = Some x
               ∧ memo_velocity x = memo_velocity inst
               ∧ pin_velocity x = pin_velocity inst
               ∧ pin_velocity_rpm x = pin_velocity_rpm inst)
    as (x & Hx & Hvel & Hv1 & Hv2).
  { destruct (_ && _).
    - eexists. split; [exact Hdec|]. unfold decode_bit.
      by destruct (msb_bit _ _).
    - by exists inst. }
  apply instances_loop_lookup in H2 as (_ & Hloop).
  destruct (Hloop _ _ Hx) as (x' & a & b & c & d & Hstep & Hx').
  rewrite Hk' in Hx'. injection Hx' as <-.
  pose proof (process_instance_index_pins _ _ _ _ _ _ _ _ Hstep) as (Hp & _).
  apply process_instance_index_pulse in Hstep as (Hpos & Hov & Ha & Hb & Hc & _);
    [|congruence].
  repeat split; congruence.
Qed.

(** Witness of C8: channel 0 of two is in overflow mode and receives an
    index pulse together with the counts 40. *)
Lemma index_pulse_reanchors_witness :
  let encoder :=
    board [set_pin_overflow_occurred true idle_instance; idle_instance] in
  let rbuf := [0; 0; 0; 1; 0; 0; 0; 40; 0; 0; 0; 0] in
  ∃ encoder' inst',
    litexcnc_encoder_process_read (hdr := header8) encoder rbuf 0 1000000
    = Some (encoder', 12%nat)
    ∧ instances encoder' !! 0%nat = Some inst'
    ∧ pin_index_pulse inst' = true
    ∧ pin_counts inst' = 10
    ∧ pin_position inst'
      = (double_of_int (pin_counts inst') * data_position_scale_recip inst')%float
    ∧ pin_overflow_occurred inst' = false
    ∧ memo_velocity inst' = replicate 8 0%float
    ∧ pin_velocity inst' = 0%float
    ∧ pin_velocity_rpm inst' = 0%float.
Proof.
  intros encoder rbuf. eexists _, _.
  split; [vm_compute; reflexivity|]. split; [vm_compute; reflexivity|].
  split; [reflexivity|]. split; [reflexivity|].
  eapply (index_pulse_reanchors (hdr := header8) encoder rbuf 0 1000000 _ 12 0
            (set_pin_overflow_occurred true idle_instance)).
  - vm_compute. reflexivity.
  - reflexivity.
  - vm_compute. reflexivity.
  - reflexivity.
Defined.

(** C9. A tick that finds [reset] set on a channel with scale 1.0 and no
    index pulse: [overflow_occurred] is false afterwards whatever the raw
    counter was on the previous tick (the tick is never taken for a
    roll-over), the reset offset is the counts of this tick (1000 in the
    scenario of the claim), [counts] and [position] are 0, and the [reset]
    pin is cleared. The hypothesis on the reciprocal says that the cache is
    that of the scale 1.0 when the tick finds the scale unchanged. *)
Theorem reset_rebaselines {hdr : encoder_header}
    encoder buf pos period encoder' pos' k inst inst' raw :
  litexcnc_encoder_process_read encoder buf pos period = Some (encoder', pos') →
  instances encoder !! k = Some inst →
  instances encoder' !! k = Some inst' →
  read_counts buf (record_offset encoder pos k) = Some raw →
  pin_reset inst = true →
  pin_index_pulse inst' = false →
  param_position_scale inst = 1%float →
  ((param_position_scale inst =? memo_position_scale inst)%float = true →
   data_position_scale_recip inst = 1%float) →
  pin_overflow_occurred inst' = false
  ∧ memo_position_reset inst'
    = (if param_x4_mode inst then raw else Z.quot raw 4)
  ∧ pin_counts inst' = 0
  ∧ pin_position inst' = 0%float
  ∧ pin_reset inst' = false.
Proof.
  intros H Hk Hk' Hraw Hreset Hpulse Hscale Hmemo.
  destruct (process_read_channel _ _ _ _ _ _ _ _ _ H Hk Hk')
    as (x & rdt & a & b & Hsame & Hstep).
  apply same_but_index_pins_frame in Hsame
    as (_ & Freset & _ & _ & Fscale & Fx4 & Frecip & Fmemo).
  pose proof (process_instance_index_pins _ _ _ _ _ _ _ _ Hstep) as (Hp & _).
  rewrite <- Fx4.
  eapply process_instance_reset; [exact Hraw| | | | |exact Hstep].
  - congruence.
  - congruence.
  - congruence.
  - rewrite Fscale, Fmemo, Frecip. exact Hmemo.
Qed.

(** Witness of C9: the previous raw count of channel 0 is [-2147483000],
    the tick reads 4000 (counts 1000 outside x4 mode) with [reset] set;
    without the re-baselining the difference would exceed [INT_MAX]. *)
Lemma reset_rebaselines_witness :
  let channel :=
    set_pin_reset true
      (set_pin_overflow_occurred true
         (set_pin_raw_counts (-2147483000) idle_instance)) in
  let encoder := board [channel; idle_instance] in
  let buf := [0; 0; 0; 0; 0; 0; 15; 160; 0; 0; 0; 0] in
  ∃ encoder' inst',
    litexcnc_encoder_process_read (hdr := header8) encoder buf 0 1000000
    = Some (encoder', 12%nat)
    ∧ instances encoder' !! 0%nat = Some inst'
    ∧ pin_overflow_occurred inst' = false
    ∧ memo_position_reset inst' = 1000
    ∧ pin_counts inst' = 0
    ∧ pin_position inst' = 0%float
    ∧ pin_reset inst' = false.
Proof.
  intros channel encoder buf. eexists _, _.
  split; [vm_compute; reflexivity|]. split; [vm_compute; reflexivity|].
  eapply (reset_rebaselines (hdr := header8) encoder buf 0 1000000 _ 12 0
            channel _ 4000).
  - vm_compute. reflexivity.
  - reflexivity.
  - vm_compute. reflexivity.
  - reflexivity.
  - reflexivity.
  - reflexivity.
  - reflexivity.
  - intros _. reflexivity.
Defined.

(** C10 (amended). A tick that finds a channel's [position_scale] within
    1e-20 of zero reads the channel's record and then:
    - if the change check finds the scale different from its memo, the
      scale is clamped to 1.0 before the reciprocal is computed: after the
      tick scale, memo and reciprocal are those of 1.0, the reciprocal is
      [1.0 / scale] of a scale that is not near zero, and the position of
      the tick is the one the code computes with the reciprocal [1.0 / 1.0]
      (from the counts, or from the difference of the roll-over code).
      The same holds of every later tick as long as the scale is left
      alone: whatever else is written to the module in between and however
      many ticks run, channel [k] has the clamped scale, memo and
      reciprocal, and every tick computes its position with [1.0 / 1.0];
    - if the scale compares equal to its memo, it is neither clamped nor
      inverted: scale, memo and cached reciprocal are left as they are,
      the scale is still near zero, and the position of the tick is
      computed with the cached reciprocal as it stands. *)
Theorem near_zero_scale_clamped_on_change {hdr : encoder_header}
    encoder buf pos period encoder' pos' k inst inst' :
  litexcnc_encoder_process_read encoder buf pos period = Some (encoder', pos') →
  instances encoder !! k = Some inst →
  instances encoder' !! k = Some inst' →
  near_zero (param_position_scale inst) = true →
  ∃ raw,
    read_counts buf (record_offset encoder pos k) = Some raw
    ∧ if (param_position_scale inst =? memo_position_scale inst)%float
      then
        param_position_scale inst' = param_position_scale inst
        ∧ memo_position_scale inst' = memo_position_scale inst
        ∧ data_position_scale_recip inst' = data_position_scale_recip inst
        ∧ near_zero (param_position_scale inst') = true
        ∧ position_computed_with (data_position_scale_recip inst) raw
            inst inst'
      else
        scale_clamped inst'
        ∧ data_position_scale_recip inst'
          = (1 / param_position_scale inst')%float
        ∧ near_zero (param_position_scale inst') = false
        ∧ position_computed_with (1 / 1)%float raw inst inst'
        ∧ ∀ later,
            scale_left_alone k encoder' later →
            (∃ x, instances later !! k = Some x ∧ scale_clamped x)
            ∧ ∀ buf2 pos2 period2 later' pos2' x x',
                litexcnc_encoder_process_read later buf2 pos2 period2
                = Some (later', pos2') →
                instances later !! k = Some x →
                instances later' !! k = Some x' →
                ∃ raw2,
                  read_counts buf2 (record_offset later pos2 k) = Some raw2
                  ∧ scale_clamped x'
                  ∧ data_position_scale_recip x'
                    = (1 / param_position_scale x')%float
                  ∧ position_computed_with (1 / 1)%float raw2 x x'.
Proof.
  intros H Hk Hk' Hzero.
  destruct (process_read_position _ _ _ _ _ _ _ _ _ H Hk Hk')
    as (raw & Hraw & Hpos).
  exists raw. split; [done|].
  destruct (param_position_scale inst =? memo_position_scale inst)%float
    eqn:Hcheck.
  - destruct (process_read_scale_equal _ _ _ _ _ _ _ _ _ H Hk Hk' Hcheck)
      as (Hs & Hm & Hr).
    rewrite Hr in Hpos. rewrite Hs. done.
  - pose proof (process_read_clamps _ _ _ _ _ _ _ _ _ H Hk Hk' Hcheck Hzero)
      as Hclamped.
    assert (∀ x : litexcnc_encoder_instance_t,
              scale_clamped x →
              data_position_scale_recip x = (1 / 1)%float
              ∧ data_position_scale_recip x
                = (1 / param_position_scale x)%float
              ∧ near_zero (param_position_scale x) = false) as Hone.
    { intros x (Hs & _ & Hr). rewrite Hs, Hr. done. }
    destruct (Hone _ Hclamped) as (Hr1 & Hr2 & Hnz).
    rewrite Hr1 in Hpos.
    split; [done|]. split; [done|]. split; [done|]. split; [done|].
    intros later Hrun.
    destruct (scale_left_alone_clamped _ _ _ _ Hk' Hclamped Hrun)
      as (y & Hy & Hcy).
    split; [by exists y|].
    intros buf2 pos2 period2 later' pos2' x x' H2 Hx Hx'.
    assert (x = y) as -> by congruence.
    destruct (process_read_position _ _ _ _ _ _ _ _ _ H2 Hx Hx')
      as (raw2 & Hraw2 & Hpos2).
    pose proof (process_read_keeps_clamp _ _ _ _ _ _ _ _ _ H2 Hx Hx' Hcy)
      as Hcx'.
    destruct (Hone _ Hcx') as (Hq1 & Hq2 & _).
    rewrite Hq1 in Hpos2.
    exists raw2. done.
Qed.

(** Witness of C10: the scale of channel 0 (memo 1.0) is set to 0.0 before
    a tick that reads the counts 40; the tick clamps the scale and leaves
    the position at 10 counts (the channel is not in x4 mode) times 1.0.
    The [reset] pin of the channel is then set and a second tick reads the
    counts 80: the scale is still the clamped one and the position is
    0 counts times 1.0. *)
Lemma near_zero_scale_clamped_on_change_witness :
  let channel := set_param_position_scale 0%float idle_instance in
  let encoder := board [channel; idle_instance] in
  let buf := [0; 0; 0; 0; 0; 0; 0; 40; 0; 0; 0; 0] in
  let buf2 := [0; 0; 0; 0; 0; 0; 0; 80; 0; 0; 0; 0] in
  ∃ encoder' inst' later' x',
    litexcnc_encoder_process_read (hdr := header8) encoder buf 0 1000000
    = Some (encoder', 12%nat)
    ∧ instances encoder' !! 0%nat = Some inst'
    ∧ scale_clamped inst'
    ∧ position_computed_with (1 / 1)%float 40 channel inst'
    ∧ pin_position inst' = 10%float
    ∧ litexcnc_encoder_process_read (hdr := header8)
        (mk_encoder (<[0%nat := set_pin_reset true inst']> (instances encoder'))
           (memo_period encoder') (memo_velocity_pointer encoder')
           (data_recip_dt encoder')) buf2 0 1000000
      = Some (later', 12%nat)
    ∧ instances later' !! 0%nat = Some x'
    ∧ scale_clamped x'
    ∧ position_computed_with (1 / 1)%float 80 (set_pin_reset true inst') x'
    ∧ pin_position x' = 0%float.
Proof.
  intros channel encoder buf buf2.
  eassert (litexcnc_encoder_process_read (hdr := header8) encoder buf 0
             1000000 = Some (_, 12%nat)) as Hstep
    by (vm_compute; reflexivity).
  match type of Hstep with
  | _ = Some (?e, _) =>
      eassert (instances e !! 0%nat = Some _) as Hk'
        by (vm_compute; reflexivity)
  end.
  assert (near_zero (param_position_scale channel) = true) as Hzero
    by reflexivity.
  destruct (near_zero_scale_clamped_on_change (hdr := header8) encoder buf 0
              1000000 _ 12 0 channel _ Hstep eq_refl Hk' Hzero)
    as (raw & Hraw & Hrest).
  vm_compute in Hraw. injection Hraw as <-.
  change (param_position_scale channel =? memo_position_scale channel)%float
    with false in Hrest.
  destruct Hrest as (Hclamped & _ & _ & Hpos & Hlater).
  match type of Hstep with
  | _ = Some (?e, _) =>
      match type of Hk' with
      | _ = Some ?i =>
          set (written :=
                 mk_encoder (<[0%nat := set_pin_reset true i]> (instances e))
                   (memo_period e) (memo_velocity_pointer e)
                   (data_recip_dt e)) in *;
          assert (scale_left_alone (hdr := header8) 0 e written) as Hrun
      end
  end.
  { eapply scale_left_alone_write; [apply scale_left_alone_start|done|].
    intros x x' Hx Hx'. rewrite Hk' in Hx. injection Hx as <-.
    injection Hx' as <-. done. }
  eassert (litexcnc_encoder_process_read (hdr := header8) written buf2 0
             1000000 = Some (_, 12%nat)) as Hstep2
    by (vm_compute; reflexivity).
  match type of Hstep2 with
  | _ = Some (?e, _) =>
      eassert (instances e !! 0%nat = Some _) as Hk2
        by (vm_compute; reflexivity)
  end.
  destruct (Hlater written Hrun) as [_ Htick].
  destruct (Htick buf2 0%nat 1000000 _ 12%nat _ _ Hstep2 eq_refl Hk2)
    as (raw2 & Hraw2 & Hclamped2 & _ & Hpos2).
  vm_compute in Hraw2. injection Hraw2 as <-.
  eexists _, _, _, _.
  split; [exact Hstep|]. split; [exact Hk'|].
  split; [exact Hclamped|]. split; [exact Hpos|].
  split; [vm_compute; reflexivity|].
  split; [exact Hstep2|]. split; [exact Hk2|].
  split; [exact Hclamped2|]. split; [exact Hpos2|].
  vm_compute. reflexivity.
Defined.

(** Counterexample to C10 as stated: a channel whose scale and memo are
    both 0.0 (the change check compares them equal) keeps the scale 0.0
    through the tick; nothing is clamped and the cached reciprocal is used
    as it stands. *)
Lemma near_zero_scale_not_clamped :
  ¬ (∀ (hdr : encoder_header) encoder buf pos period encoder' pos' k
       inst inst',
       litexcnc_encoder_process_read encoder buf pos period
       = Some (encoder', pos') →
       instances encoder !! k = Some inst →
       instances encoder' !! k = Some inst' →
       near_zero (param_position_scale inst) = true →
       param_position_scale inst' = 1%float
       ∧ data_position_scale_recip inst' = (1 / 1)%float).
Proof.
  intros H.
  set (channel := set_memo_position_scale 0%float
                    (set_data_position_scale_recip 0%float
                       (set_param_position_scale 0%float idle_instance))).
  set (buf := [0; 0; 0; 0; 0; 0; 0; 40]).
  eassert (litexcnc_encoder_process_read (hdr := header8) (board [channel])
             buf 0 1000000 = Some (_, _)) as Hstep
    by (vm_compute; reflexivity).
  assert (near_zero (param_position_scale channel) = true) as Hzero
    by (vm_compute; reflexivity).
  epose proof (H header8 _ _ _ _ _ _ 0%nat channel _ Hstep eq_refl) as H'.
  destruct H' as [Hscale _]; [vm_compute; reflexivity | exact Hzero |].
  vm_compute in Hscale. discriminate Hscale.
Qed.

(** * Further properties of the driver *)

(** ** Buffer sizes and [prepare_write] *)

(** X1. [single_dword_buffer] is the least whole number of 32-bit words
    that holds one bit per channel, in bytes: a multiple of 4 with
    [n <= 8 * size < n + 32], and zero exactly when there is no channel. *)
Theorem single_dword_buffer_bounds encoder :
  single_dword_buffer encoder mod 4 = 0
  ∧ num_instances encoder <= 8 * single_dword_buffer encoder
    < num_instances encoder + 32
  ∧ (single_dword_buffer encoder = 0 ↔ num_instances encoder = 0).
Proof.
  rewrite single_dword_buffer_ceil.
  assert (0 <= num_instances encoder) as Hn by (unfold num_instances; lia).
  repeat split; Z.div_mod_to_equations; lia.
Qed.

Lemma single_dword_buffer_nonneg encoder : 0 <= single_dword_buffer encoder.
Proof.
  rewrite single_dword_buffer_ceil. unfold num_instances.
  Z.div_mod_to_equations; lia.
Qed.

Lemma pack_loop_frame pin insts i : ∀ q buf buf' pos' j,
  pack_loop pin i (mask_of q) buf (q / 8)%nat insts = Some (buf', pos') →
  (j < q / 8 ∨ q + i ≤ 8 * j)%nat →
  buf' !! j = buf !! j.
Proof.
  induction i as [|i IH]; intros q buf buf' pos' j H Hj.
  - simpl in H. by injection H as <- <-.
  - cbn [pack_loop] in H. rewrite next_mask_of, next_pos_of in H.
    pose proof (Nat.div_mod_eq q 8) as Hq.
    pose proof (Nat.mod_upper_bound q 8 ltac:(lia)) as Hr.
    assert (q / 8 ≤ S q / 8)%nat as Hmono
      by (apply Nat.Div0.div_le_mono; lia).
    destruct (S i <? length insts)%nat.
    + destruct (buf !! (q / 8)%nat) as [byte|] eqn:Hb; [|done].
      destruct (insts !! i) as [inst|] eqn:Hi; [|done].
      cbn [mbind option_bind] in H.
      rewrite (IH _ _ _ _ j H) by lia.
      apply list_lookup_insert_ne. lia.
    + cbn [mbind option_bind] in H. apply (IH _ _ _ _ j H). lia.
Qed.

Lemma pack_loop_frame_bytes pin insts i pos buf buf' pos' j :
  pack_loop pin i 128 buf pos insts = Some (buf', pos') →
  (j < pos ∨ 8 * pos + i ≤ 8 * j)%nat →
  buf' !! j = buf !! j.
Proof.
  intros H Hj. apply (pack_loop_frame pin insts i (8 * pos) buf buf' pos' j).
  - by rewrite mask_of_byte, div_byte.
  - rewrite div_byte. lia.
Qed.

(** X2. A buffer with [required_write_buffer] bytes from the cursor on is
    enough for [prepare_write]: it returns, the cursor ends exactly that
    many bytes further, and the buffer keeps its length. *)
Theorem prepare_write_fits encoder buf pos :
  (pos + Z.to_nat (required_write_buffer encoder) ≤ length buf)%nat →
  ∃ buf',
    litexcnc_encoder_prepare_write encoder buf pos
    = Some (buf', (pos + Z.to_nat (required_write_buffer encoder))%nat)
    ∧ length buf' = length buf.
Proof.
  intros Hlen.
  destruct (prepare_write_total encoder buf pos Hlen) as [[buf' pos'] H].
  pose proof (single_dword_buffer_nonneg encoder) as Hs.
  destruct (decide (instances encoder = [])) as [E|Hne].
  - unfold litexcnc_encoder_prepare_write, num_instances in H |- *.
    unfold required_write_buffer, single_dword_buffer, num_instances.
    rewrite E in H |- *. simpl in H |- *. injection H as <- <-.
    exists buf. by rewrite Nat.add_0_r.
  - destruct (prepare_write_spec _ _ _ _ _ H Hne) as (-> & Hl & _).
    exists buf'. rewrite H. split; [|done]. do 2 f_equal.
    unfold required_write_buffer. lia.
Qed.

(** Witness of X2: three channels, eight zeroed bytes. *)
Lemma prepare_write_fits_witness :
  ∃ buf',
    litexcnc_encoder_prepare_write
      (board [idle_instance; idle_instance; idle_instance]) (replicate 8 0) 0
    = Some (buf', 8%nat)
    ∧ length buf' = 8%nat.
Proof.
  apply (prepare_write_fits
           (board [idle_instance; idle_instance; idle_instance])
           (replicate 8 0) 0).
  vm_compute. lia.
Defined.

(** X3. [prepare_write] writes only inside its two registers: every byte
    before the cursor or from [required_write_buffer] bytes after it on is
    what it was. *)
Theorem prepare_write_frame encoder buf pos buf' pos' j :
  litexcnc_encoder_prepare_write encoder buf pos = Some (buf', pos') →
  (j < pos ∨ pos + Z.to_nat (required_write_buffer encoder) ≤ j)%nat →
  buf' !! j = buf !! j.
Proof.
  intros H Hj. unfold litexcnc_encoder_prepare_write in H.
  destruct (num_instances encoder =? 0); [by injection H as <- <-|].
  pose proof (single_dword_buffer_nonneg encoder) as Hs.
  pose proof (register_bits_bytes encoder) as HW.
  unfold required_write_buffer in Hj.
  destruct (pack_loop pin_index_enable _ _ _ _ _) as [[buf1 pos1]|] eqn:H1;
    [|done].
  cbn [mbind option_bind] in H.
  pose proof H1 as H1'. apply pack_loop_bytes in H1' as (-> & _ & _).
  assert ((8 * pos + register_bits encoder) / 8
          = pos + Z.to_nat (single_dword_buffer encoder))%nat as Hpos1
    by (rewrite HW; apply div_bytes).
  rewrite Hpos1 in H.
  rewrite (pack_loop_frame_bytes _ _ _ _ _ _ _ j H) by lia.
  apply (pack_loop_frame_bytes _ _ _ _ _ _ _ j H1). lia.
Qed.

(** Witness of X3: the two registers of three channels start at byte 2 of
    a twelve-byte buffer; byte 1 and byte 10 keep their value 7. *)
Lemma prepare_write_frame_witness :
  let encoder :=
    board [set_pin_index_enable true idle_instance;
           set_pin_index_enable true idle_instance; idle_instance] in
  ∃ buf',
    litexcnc_encoder_prepare_write encoder (replicate 12 4) 2
    = Some (buf', 10%nat)
    ∧ buf' !! 5%nat = Some 7
    ∧ buf' !! 1%nat = replicate 12 4 !! 1%nat
    ∧ buf' !! 10%nat = replicate 12 4 !! 10%nat.
Proof.
  intros encoder. eexists. split; [vm_compute; reflexivity|].
  split; [reflexivity|]. split.
  - eapply (prepare_write_frame encoder (replicate 12 4) 2 _ 10 1).
    + vm_compute. reflexivity.
    + left. lia.
  - eapply (prepare_write_frame encoder (replicate 12 4) 2 _ 10 10).
    + vm_compute. reflexivity.
    + right. vm_compute. lia.
Defined.

Lemma lor_is_byte a b : is_byte a → is_byte b → is_byte (Z.lor a b).
Proof.
  unfold is_byte. intros [Ha1 Ha2] [Hb1 Hb2].
  assert (0 <= Z.lor a b) as Hl by (apply Z.lor_nonneg; lia).
  split; [done|].
  destruct (Z.eq_dec (Z.lor a b) 0) as [->|Hne]; [lia|].
  change 256 with (2 ^ 8). apply Z.log2_lt_pow2; [lia|].
  rewrite Z.log2_lor by lia.
  assert (Z.log2 a < 8) as Hla.
  { destruct (Z.eq_dec a 0) as [->|]; [done|].
    apply Z.log2_lt_pow2; [lia|]. by change (2 ^ 8) with 256. }
  assert (Z.log2 b < 8) as Hlb.
  { destruct (Z.eq_dec b 0) as [->|]; [done|].
    apply Z.log2_lt_pow2; [lia|]. by change (2 ^ 8) with 256. }
  lia.
Qed.

Lemma mask_of_is_byte q : is_byte (mask_of q).
Proof.
  unfold mask_of, is_byte.
  pose proof (Nat.mod_upper_bound q 8 ltac:(lia)) as Hr.
  split; [apply Z.pow_nonneg; lia|].
  change 256 with (2 ^ 8). apply Z.pow_lt_mono_r; lia.
Qed.

Lemma pack_loop_is_byte pin insts i : ∀ q buf buf' pos',
  pack_loop pin i (mask_of q) buf (q / 8)%nat insts = Some (buf', pos') →
  Forall is_byte buf → Forall is_byte buf'.
Proof.
  induction i as [|i IH]; intros q buf buf' pos' H Hbytes.
  - simpl in H. by injection H as <- <-.
  - cbn [pack_loop] in H. rewrite next_mask_of, next_pos_of in H.
    destruct (S i <? length insts)%nat.
    + destruct (buf !! (q / 8)%nat) as [byte|] eqn:Hb; [|done].
      destruct (insts !! i) as [inst|] eqn:Hi; [|done].
      cbn [mbind option_bind] in H. apply (IH _ _ _ _ H).
      apply Forall_insert; [done|]. apply lor_is_byte.
      * by eapply Forall_lookup_1.
      * destruct (pin inst); [apply mask_of_is_byte|done].
    + cbn [mbind option_bind] in H. by apply (IH _ _ _ _ H).
Qed.

Lemma pack_loop_is_byte_bytes pin insts i pos buf buf' pos' :
  pack_loop pin i 128 buf pos insts = Some (buf', pos') →
  Forall is_byte buf → Forall is_byte buf'.
Proof.
  intros H. apply (pack_loop_is_byte pin insts i (8 * pos) buf buf' pos').
  by rewrite mask_of_byte, div_byte.
Qed.

(** X4. [prepare_write] only ors bits into the buffer: a bit that was set
    before the call is set after it, and a buffer of bytes (values 0..255)
    stays one. *)
Theorem prepare_write_only_sets encoder buf pos buf' pos' :
  litexcnc_encoder_prepare_write encoder buf pos = Some (buf', pos') →
  (∀ a, msb_bit buf a = true → msb_bit buf' a = true)
  ∧ (Forall is_byte buf → Forall is_byte buf').
Proof.
  intros H. split.
  - intros a Ha.
    destruct (decide (instances encoder = [])) as [E|Hne].
    + unfold litexcnc_encoder_prepare_write, num_instances in H.
      rewrite E in H. simpl in H. by injection H as <- <-.
    + destruct (prepare_write_spec _ _ _ _ _ H Hne) as (_ & _ & Hbits).
      rewrite Hbits, Ha. reflexivity.
  - intros Hbytes. unfold litexcnc_encoder_prepare_write in H.
    destruct (num_instances encoder =? 0); [by injection H as <- <-|].
    destruct (pack_loop pin_index_enable _ _ _ _ _) as [[buf1 pos1]|] eqn:H1;
      [|done].
    cbn [mbind option_bind] in H.
    apply (pack_loop_is_byte_bytes _ _ _ _ _ _ _ H).
    by apply (pack_loop_is_byte_bytes _ _ _ _ _ _ _ H1).
Qed.

(** Witness of X4: channel 0 of three is enabled; the buffer holds the
    byte 128 everywhere, so bit 0 of the buffer is set before and after. *)
Lemma prepare_write_only_sets_witness :
  let encoder :=
    board [set_pin_index_enable true idle_instance; idle_instance;
           idle_instance] in
  ∃ buf',
    litexcnc_encoder_prepare_write encoder (replicate 8 128) 0
    = Some (buf', 8%nat)
    ∧ buf' !! 3%nat = Some 129
    ∧ msb_bit buf' 0 = true
    ∧ Forall is_byte buf'.
Proof.
  intros encoder. eexists. split; [vm_compute; reflexivity|].
  split; [reflexivity|].
  destruct (prepare_write_only_sets encoder (replicate 8 128) 0
              [128; 128; 128; 129; 128; 128; 128; 128] 8) as [Hset Hbytes].
  - vm_compute. reflexivity.
  - split.
    + apply Hset. reflexivity.
    + apply Hbytes. repeat constructor; unfold is_byte; lia.
Defined.

(** ** The cursor of [process_read] *)

Section ReadCursor.
Context {hdr : encoder_header}.

Lemma read_counts_bound buf pos raw :
  read_counts buf pos = Some raw → (pos + 4 ≤ length buf)%nat.
Proof.
  unfold read_counts. intros H.
  destruct (buf !! pos); [|done]. cbn [mbind option_bind] in H.
  destruct (buf !! (pos + 1)%nat); [|done]. cbn [mbind option_bind] in H.
  destruct (buf !! (pos + 2)%nat); [|done]. cbn [mbind option_bind] in H.
  destruct (buf !! (pos + 3)%nat) eqn:H3; [|done].
  apply lookup_lt_Some in H3. lia.
Qed.

Lemma instances_loop_cursor recip_dt buf insts : ∀ ptr pos insts' ptr' pos',
  instances_loop recip_dt buf ptr pos insts = Some (insts', ptr', pos') →
  pos' = (pos + 4 * length insts)%nat
  ∧ (insts ≠ [] → pos' ≤ length buf)%nat.
Proof.
  induction insts as [|x rest IH]; intros ptr pos insts' ptr' pos' H.
  - simpl in H. injection H as <- <- <-. simpl. split; [lia|done].
  - cbn [instances_loop] in H.
    destruct (process_instance recip_dt buf ptr pos x)
      as [[[x' ptr1] pos1]|] eqn:Hx; [|done].
    cbn [mbind option_bind] in H.
    destruct (instances_loop recip_dt buf ptr1 pos1 rest)
      as [[[rest' ptr2] pos2]|] eqn:Hrest; [|done].
    cbn [mbind option_bind] in H. injection H as <- <- <-.
    apply process_instance_inv in Hx as (raw & Hraw & -> & _).
    apply read_counts_bound in Hraw.
    apply IH in Hrest as (-> & Hbound). cbn [length].
    split; [lia|]. intros _.
    destruct rest as [|y rest]; [simpl; lia|].
    apply Hbound. done.
Qed.

End ReadCursor.

(** X5. When [process_read] returns, it has consumed the index-pulse
    register and one 4-byte record per channel: the cursor ends
    [single_dword_buffer + 4 * num_instances] bytes further, inside the
    buffer when there is a channel, and the module has as many channels
    as before. *)
Theorem process_read_consumes {hdr : encoder_header}
    encoder buf pos period encoder' pos' :
  litexcnc_encoder_process_read encoder buf pos period = Some (encoder', pos') →
  pos' = (pos + Z.to_nat (single_dword_buffer encoder)
          + 4 * length (instances encoder))%nat
  ∧ (instances encoder ≠ [] → pos' ≤ length buf)%nat
  ∧ length (instances encoder') = length (instances encoder).
Proof.
  intros H. split; [|split; [|by eapply process_read_length]].
  - destruct (decide (instances encoder = [])) as [E|Hne].
    + assert (single_dword_buffer encoder = 0) as ->.
      { apply single_dword_buffer_bounds. unfold num_instances.
        by rewrite E. }
      unfold litexcnc_encoder_process_read, num_instances in H.
      rewrite E in H |- *. simpl in H |- *. injection H as <- <-. lia.
    + apply process_read_inv in H as (insts1 & pos1 & H1 & H2); [|done].
      apply index_pulse_loop_bytes in H1 as (-> & Hlen & _).
      rewrite register_bits_bytes, div_bytes in H2.
      apply instances_loop_cursor in H2 as (-> & _). by rewrite Hlen.
  - intros Hne.
    apply process_read_inv in H as (insts1 & pos1 & H1 & H2); [|done].
    apply index_pulse_loop_bytes in H1 as (_ & Hlen & _).
    apply instances_loop_cursor in H2 as (_ & Hbound). apply Hbound.
    intros E. rewrite E in Hlen. destruct (instances encoder); done.
Qed.

(** Witness of X5: two channels, a twelve-byte buffer. *)
Lemma process_read_consumes_witness :
  let encoder := board [idle_instance; idle_instance] in
  ∃ encoder',
    litexcnc_encoder_process_read (hdr := header8) encoder (replicate 12 0)
      0 1000000 = Some (encoder', 12%nat)
    ∧ 12%nat = (0 + Z.to_nat (single_dword_buffer encoder)
                + 4 * length (instances encoder))%nat
    ∧ (instances encoder ≠ [] → 12 ≤ length (replicate 12 0))%nat
    ∧ length (instances encoder') = length (instances encoder).
Proof.
  intros encoder. eexists. split; [vm_compute; reflexivity|].
  eapply (process_read_consumes (hdr := header8) encoder (replicate 12 0) 0
            1000000 _ 12).
  vm_compute. reflexivity.
Defined.

(** X6. [process_read] returns, without any access outside the buffer or a
    history array, when the buffer holds the index-pulse register and one
    record per channel from the cursor on, every history has the size of
    the header, and the shared velocity pointer has room for one store per
    channel. *)
Theorem process_read_in_bounds {hdr : encoder_header}
    encoder buf pos period :
  (pos + Z.to_nat (single_dword_buffer encoder)
   + 4 * length (instances encoder) ≤ length buf)%nat →
  Forall (λ inst, length (memo_velocity inst)
                  = LITEXCNC_ENCODER_POSITION_AVERAGE_SIZE)
    (instances encoder) →
  (memo_velocity_pointer encoder + length (instances encoder)
   ≤ LITEXCNC_ENCODER_POSITION_AVERAGE_SIZE)%nat →
  ∃ encoder',
    litexcnc_encoder_process_read encoder buf pos period
    = Some (encoder',
            (pos + Z.to_nat (single_dword_buffer encoder)
             + 4 * length (instances encoder))%nat).
Proof.
  intros Hbuf Hvel Hptr.
  destruct (process_read_total encoder buf pos period Hbuf Hvel Hptr)
    as [[encoder' pos'] H].
  exists encoder'. rewrite H.
  by apply process_read_consumes in H as (-> & _).
Qed.

(** Witness of X6: three idle channels with histories of eight entries, the
    pointer at 5, a sixteen-byte buffer. *)
Lemma process_read_in_bounds_witness :
  let encoder :=
    mk_encoder [idle_instance; idle_instance; idle_instance] 1000000 5
      1000%float in
  ∃ encoder',
    litexcnc_encoder_process_read (hdr := header8) encoder (replicate 16 0)
      0 1000000
    = Some (encoder',
            (0 + Z.to_nat (single_dword_buffer encoder)
             + 4 * length (instances encoder))%nat).
Proof.
  intros encoder.
  apply (process_read_in_bounds (hdr := header8) encoder (replicate 16 0) 0
           1000000).
  - vm_compute. lia.
  - repeat constructor.
  - vm_compute. lia.
Defined.

(** ** The shared flags and the overflow flag through a tick *)

Section TickFlags.
Context {hdr : encoder_header}.

Lemma rollover_sticky raw counts_old x4_mode :
  (rollover raw counts_old x4_mode true).1 = true.
Proof. unfold rollover. by case_match. Qed.

(** After the body of the instance loop, a clear overflow flag means the
    position is the absolute one. *)
Lemma process_instance_absolute recip_dt buf ptr pos inst inst' ptr' pos' :
  process_instance recip_dt buf ptr pos inst = Some (inst', ptr', pos') →
  pin_overflow_occurred inst' = false →
  pin_position inst'
  = (double_of_int (pin_counts inst') * data_position_scale_recip inst')%float.
Proof.
  intros H Hov. apply process_instance_inv in H as (raw & _ & _ & Hv).
  apply update_velocity_frame in Hv
    as (_ & H2 & _ & _ & _ & H6 & H7 & _ & _ & H10 & _).
  destruct (position_stage_spec raw inst)
    as (_ & _ & _ & _ & Hrecip & _ & _ & _ & Hpulse & Hno).
  rewrite H6, H2, H10, Hrecip. rewrite H7 in Hov.
  destruct (pin_index_pulse (update_position_scale inst)).
  - by destruct Hpulse.
  - destruct Hno as [Hov' Hpos]; [done|]. cbv zeta in Hov', Hpos.
    rewrite Hov in Hov'. by rewrite <- Hov' in Hpos.
Qed.

End TickFlags.

(** X7. [process_read] clears a channel's [index_enable] exactly when it
    decodes an index pulse for it: for every channel before the last,
    [index_enable] after the tick is the old value and-ed with the negated
    decoded pulse; and for every channel the tick never sets
    [index_enable]. *)
Theorem index_enable_cleared_on_pulse {hdr : encoder_header}
    encoder buf pos period encoder' pos' k inst inst' :
  litexcnc_encoder_process_read encoder buf pos period = Some (encoder', pos') →
  instances encoder !! k = Some inst →
  instances encoder' !! k = Some inst' →
  ((S k < length (instances encoder))%nat →
   pin_index_enable inst'
   = pin_index_enable inst && negb (pin_index_pulse inst'))
  ∧ (pin_index_enable inst' = true → pin_index_enable inst = true).
Proof.
  intros H Hk Hk'. split.
  - intros Hlt.
    destruct (process_read_decoded _ _ _ _ _ _ _ _ H Hk Hlt)
      as (x & Hx & Hp & He).
    rewrite Hk' in Hx. injection Hx as <-. by rewrite He, Hp.
  - destruct (process_read_channel _ _ _ _ _ _ _ _ _ H Hk Hk')
      as (x & rdt & a & b & Hsame & Hstep).
    apply process_instance_index_pins in Hstep as (_ & ->).
    destruct Hsame as [->|[bit ->]]; [done|].
    unfold decode_bit. by destruct bit.
Qed.

(** Witness of X7: channel 0 of two has [index_enable] set and receives an
    index pulse. *)
Lemma index_enable_cleared_on_pulse_witness :
  let encoder :=
    board [set_pin_index_enable true idle_instance; idle_instance] in
  let buf := [0; 0; 0; 1; 0; 0; 0; 0; 0; 0; 0; 0] in
  ∃ encoder' inst',
    litexcnc_encoder_process_read (hdr := header8) encoder buf 0 1000000
    = Some (encoder', 12%nat)
    ∧ instances encoder' !! 0%nat = Some inst'
    ∧ pin_index_pulse inst' = true
    ∧ ((1 < length (instances encoder))%nat →
       pin_index_enable inst' = true && negb (pin_index_pulse inst'))
    ∧ (pin_index_enable inst' = true → true = true).
Proof.
  intros encoder buf. eexists _, _.
  split; [vm_compute; reflexivity|]. split; [vm_compute; reflexivity|].
  split; [reflexivity|].
  eapply (index_enable_cleared_on_pulse (hdr := header8) encoder buf 0
            1000000 _ 12 0 (set_pin_index_enable true idle_instance)).
  - vm_compute. reflexivity.
  - reflexivity.
  - vm_compute. reflexivity.
Defined.

(** X8. [overflow_occurred] is sticky: a tick clears it only through an
    index pulse or a reset request. If it was set before the tick and is
    clear after it, the channel had its [index_pulse] set on that tick or
    its [reset] pin set before it. *)
Theorem overflow_cleared_only_by_pulse_or_reset {hdr : encoder_header}
    encoder buf pos period encoder' pos' k inst inst' :
  litexcnc_encoder_process_read encoder buf pos period = Some (encoder', pos') →
  instances encoder !! k = Some inst →
  instances encoder' !! k = Some inst' →
  pin_overflow_occurred inst = true →
  pin_overflow_occurred inst' = false →
  pin_index_pulse inst' = true ∨ pin_reset inst = true.
Proof.
  intros H Hk Hk' Hov Hov'.
  destruct (process_read_channel _ _ _ _ _ _ _ _ _ H Hk Hk')
    as (x & rdt & a & b & Hsame & Hstep).
  apply same_but_index_pins_frame in Hsame
    as (_ & Freset & _ & Fov & _).
  pose proof (process_instance_index_pins _ _ _ _ _ _ _ _ Hstep) as (Hp & _).
  destruct (pin_index_pulse inst') eqn:Hpulse; [by left|].
  destruct (pin_reset inst) eqn:Hreset; [by right|]. exfalso.
  pose proof Hstep as Hinv.
  apply process_instance_inv in Hinv as (raw & Hraw & _ & _).
  assert (pin_index_pulse x = false) as Hx1 by congruence.
  assert (pin_reset x = false) as Hx2 by congruence.
  pose proof (process_instance_no_pulse _ _ _ _ _ _ _ _ _ Hraw
                Hx1 Hx2 Hstep) as [Hr _].
  rewrite Fov, Hov, rollover_sticky in Hr. congruence.
Qed.

(** Witness of X8: a channel in overflow mode with [reset] set. *)
Lemma overflow_cleared_only_by_pulse_or_reset_witness :
  let channel :=
    set_pin_reset true (set_pin_overflow_occurred true idle_instance) in
  let encoder := board [channel; idle_instance] in
  ∃ encoder' inst',
    litexcnc_encoder_process_read (hdr := header8) encoder (replicate 12 0)
      0 1000000 = Some (encoder', 12%nat)
    ∧ instances encoder' !! 0%nat = Some inst'
    ∧ (pin_index_pulse inst' = true ∨ pin_reset channel = true).
Proof.
  intros channel encoder. eexists _, _.
  split; [vm_compute; reflexivity|]. split; [vm_compute; reflexivity|].
  eapply (overflow_cleared_only_by_pulse_or_reset (hdr := header8) encoder
            (replicate 12 0) 0 1000000 _ 12 0 channel).
  - vm_compute. reflexivity.
  - reflexivity.
  - vm_compute. reflexivity.
  - reflexivity.
  - reflexivity.
Defined.

(** X9. Whenever a channel ends a tick with [overflow_occurred] clear, its
    position is the absolute one, [counts * position_scale_recip]. *)
Theorem position_absolute_without_overflow {hdr : encoder_header}
    encoder buf pos period encoder' pos' k inst inst' :
  litexcnc_encoder_process_read encoder buf pos period = Some (encoder', pos') →
  instances encoder !! k = Some inst →
  instances encoder' !! k = Some inst' →
  pin_overflow_occurred inst' = false →
  pin_position inst'
  = (double_of_int (pin_counts inst') * data_position_scale_recip inst')%float.
Proof.
  intros H Hk Hk' Hov.
  destruct (process_read_channel _ _ _ _ _ _ _ _ _ H Hk Hk')
    as (x & rdt & a & b & _ & Hstep).
  by eapply process_instance_absolute.
Qed.

(** Witness of X9: an x4 channel with scale 0.5 reads the counts 1000. *)
Lemma position_absolute_without_overflow_witness :
  let channel :=
    mk_instance 0 0 false false false 0%float 0%float 0%float false
      0.5%float true 2%float 0.5%float 0 (replicate 8 0%float) in
  let encoder := board [channel; idle_instance] in
  let buf := [0; 0; 0; 0; 0; 0; 3; 232; 0; 0; 0; 0] in
  ∃ encoder' inst',
    litexcnc_encoder_process_read (hdr := header8) encoder buf 0 1000000
    = Some (encoder', 12%nat)
    ∧ instances encoder' !! 0%nat = Some inst'
    ∧ pin_counts inst' = 1000
    ∧ pin_position inst' = 2000%float
    ∧ pin_position inst'
      = (double_of_int (pin_counts inst')
         * data_position_scale_recip inst')%float.
Proof.
  intros channel encoder buf. eexists _, _.
  split; [vm_compute; reflexivity|]. split; [vm_compute; reflexivity|].
  split; [reflexivity|]. split; [reflexivity|].
  eapply (position_absolute_without_overflow (hdr := header8) encoder buf 0
            1000000 _ 12 0 channel).
  - vm_compute. reflexivity.
  - reflexivity.
  - vm_compute. reflexivity.
  - reflexivity.
Defined.

(** ** Roll-over compensation and the count record *)

(** X10. For two raw counts of 32 bits, the roll-over test fires exactly
    when their 64-bit difference leaves the [int32_t] range, and the
    difference compensated with [UINT_MAX] is then one count short of the
    wrapped 32-bit difference: [wrap - 1 >= 0] after a forward roll-over,
    [wrap + 1 <= 0] after a backward one (divided by 4 outside x4 mode).
    Within the range the difference and the overflow flag are passed on. *)
Theorem rollover_one_count_short (raw counts_old : Z)
    (x4_mode overflow : bool) :
  INT_MIN <= raw <= INT_MAX →
  INT_MIN <= counts_old <= INT_MAX →
  let difference := raw - counts_old in
  let scaled (c : Z) := if x4_mode then c else Z.quot c 4 in
  (difference < INT_MIN →
   rollover raw counts_old x4_mode overflow
   = (true, scaled (wrap_s32 difference - 1))
   ∧ 0 <= wrap_s32 difference - 1)
  ∧ (INT_MAX < difference →
     rollover raw counts_old x4_mode overflow
     = (true, scaled (wrap_s32 difference + 1))
     ∧ wrap_s32 difference + 1 <= 0)
  ∧ (INT_MIN <= difference <= INT_MAX →
     rollover raw counts_old x4_mode overflow = (overflow, difference)).
Proof.
  intros Hraw Hold difference scaled.
  assert (difference = raw - counts_old) as Hdiff by done.
  unfold rollover, wrap_s32, INT_MIN, INT_MAX, UINT_MAX in *.
  fold difference. clearbody difference.
  change (2 ^ 31) with 2147483648 in *. change (2 ^ 32) with 4294967296.
  rewrite Z.gtb_ltb.
  split; [|split]; intros Hd; [split|split|].
  - rewrite (proj2 (Z.ltb_lt difference _)) by lia. cbn [orb].
    rewrite (proj2 (Z.ltb_lt difference 0)) by lia.
    unfold scaled. destruct x4_mode; cbn [negb]; do 2 f_equal;
      Z.div_mod_to_equations; lia.
  - Z.div_mod_to_equations; lia.
  - rewrite (proj2 (Z.ltb_ge difference _)) by lia.
    rewrite (proj2 (Z.ltb_lt _ difference)) by lia. cbn [orb].
    rewrite (proj2 (Z.ltb_ge difference 0)) by lia.
    unfold scaled. destruct x4_mode; cbn [negb]; do 2 f_equal;
      Z.div_mod_to_equations; lia.
  - Z.div_mod_to_equations; lia.
  - rewrite (proj2 (Z.ltb_ge difference _)) by lia.
    rewrite (proj2 (Z.ltb_ge _ difference)) by lia. reflexivity.
Qed.

(** Witness of X10: the forward roll-over from [2^31 - 5] to
    [-(2^31) + 10] in x4 mode; the wrapped difference is 15. *)
Lemma rollover_one_count_short_witness :
  wrap_s32 ((- 2 ^ 31 + 10) - (2 ^ 31 - 5)) = 15
  ∧ rollover (- 2 ^ 31 + 10) (2 ^ 31 - 5) true false = (true, 15 - 1).
Proof.
  split; [reflexivity|].
  destruct (rollover_one_count_short (- 2 ^ 31 + 10) (2 ^ 31 - 5) true false)
    as ([H _] & _).
  - vm_compute. split; discriminate.
  - vm_compute. split; discriminate.
  - reflexivity.
  - exact H.
Defined.

Lemma lor_shiftl_add a b n :
  0 <= n → 0 <= b < 2 ^ n → Z.lor (Z.shiftl a n) b = a * 2 ^ n + b.
Proof.
  intros Hn Hb. rewrite Z.shiftl_mul_pow2 by done.
  rewrite Z.add_nocarry_lxor, Z.lxor_lor; [done| |];
    (apply Z.bits_inj'; intros k Hk; rewrite Z.land_spec, Z.bits_0;
     destruct (Z.lt_ge_cases k n) as [Hlt|Hge];
     [ by rewrite Z.mul_pow2_bits_low
     | rewrite andb_comm;
       destruct (Z.eq_dec b 0) as [->|Hb0]; [by rewrite Z.bits_0|];
       rewrite (Z.bits_above_log2 b k); [done|lia|];
       apply Z.lt_le_trans with n; [apply Z.log2_lt_pow2; lia|done] ]).
Qed.

Lemma be32toh_value b0 b1 b2 b3 :
  is_byte b1 → is_byte b2 → is_byte b3 →
  be32toh b0 b1 b2 b3 = be32_value b0 b1 b2 b3.
Proof.
  unfold is_byte, be32toh, be32_value. intros H1 H2 H3.
  rewrite (lor_shiftl_add b2 b3 8) by (change (2 ^ 8) with 256; lia).
  rewrite (lor_shiftl_add b1 _ 16)
    by (change (2 ^ 8) with 256; change (2 ^ 16) with 65536; lia).
  rewrite (lor_shiftl_add b0 _ 24)
    by (change (2 ^ 8) with 256; change (2 ^ 16) with 65536;
        change (2 ^ 24) with 16777216; lia).
  lia.
Qed.

(** X11. The count record is read as a big-endian two's complement number:
    for four bytes [b0 b1 b2 b3] at the cursor the decoded raw count is
    [b0*2^24 + b1*2^16 + b2*2^8 + b3], less [2^32] when [b0 >= 128]; it
    lies in the [int32_t] range, and two records decode to the same count
    only if they are the same four bytes. *)
Theorem read_counts_big_endian buf pos b0 b1 b2 b3 :
  buf !! pos = Some b0 →
  buf !! (pos + 1)%nat = Some b1 →
  buf !! (pos + 2)%nat = Some b2 →
  buf !! (pos + 3)%nat = Some b3 →
  is_byte b0 → is_byte b1 → is_byte b2 → is_byte b3 →
  read_counts buf pos
  = Some (if b0 <? 128 then be32_value b0 b1 b2 b3
          else be32_value b0 b1 b2 b3 - 2 ^ 32)
  ∧ INT_MIN <= (if b0 <? 128 then be32_value b0 b1 b2 b3
                else be32_value b0 b1 b2 b3 - 2 ^ 32) <= INT_MAX
  ∧ ∀ c0 c1 c2 c3,
      is_byte c0 → is_byte c1 → is_byte c2 → is_byte c3 →
      read_counts [c0; c1; c2; c3] 0 = read_counts buf pos →
      c0 = b0 ∧ c1 = b1 ∧ c2 = b2 ∧ c3 = b3.
Proof.
  intros H0 H1 H2 H3 I0 I1 I2 I3.
  assert (∀ a0 a1 a2 a3, is_byte a0 → is_byte a1 → is_byte a2 → is_byte a3 →
            wrap_s32 (be32toh a0 a1 a2 a3)
            = if a0 <? 128 then be32_value a0 a1 a2 a3
              else be32_value a0 a1 a2 a3 - 2 ^ 32) as Hwrap.
  { intros a0 a1 a2 a3 J0 J1 J2 J3. rewrite be32toh_value by done.
    unfold wrap_s32, be32_value, is_byte in *.
    change (2 ^ 31) with 2147483648. change (2 ^ 32) with 4294967296.
    change (2 ^ 24) with 16777216. change (2 ^ 16) with 65536.
    change (2 ^ 8) with 256.
    destruct (Z.ltb_spec a0 128); Z.div_mod_to_equations; lia. }
  assert (read_counts buf pos = Some (wrap_s32 (be32toh b0 b1 b2 b3))) as Hread.
  { unfold read_counts. rewrite H0, H1, H2, H3. reflexivity. }
  rewrite Hread, Hwrap by done.
  split; [done|]. split.
  - unfold INT_MIN, INT_MAX, be32_value, is_byte in *.
    change (2 ^ 31) with 2147483648. change (2 ^ 32) with 4294967296.
    change (2 ^ 24) with 16777216. change (2 ^ 16) with 65536.
    change (2 ^ 8) with 256.
    destruct (Z.ltb_spec b0 128); lia.
  - intros c0 c1 c2 c3 J0 J1 J2 J3 Heq.
    change (read_counts [c0; c1; c2; c3] 0)
      with (Some (wrap_s32 (be32toh c0 c1 c2 c3))) in Heq.
    rewrite Hwrap in Heq by done. injection Heq as Heq.
    unfold be32_value, is_byte in *.
    change (2 ^ 32) with 4294967296 in Heq.
    change (2 ^ 24) with 16777216 in Heq. change (2 ^ 16) with 65536 in Heq.
    change (2 ^ 8) with 256 in Heq.
    destruct (Z.ltb_spec b0 128), (Z.ltb_spec c0 128); lia.
Qed.

(** Witness of X11: the record FF FF FF F6 is the count -10. *)
Lemma read_counts_big_endian_witness :
  read_counts [255; 255; 255; 246] 0
  = Some (if 255 <? 128 then be32_value 255 255 255 246
          else be32_value 255 255 255 246 - 2 ^ 32)
  ∧ be32_value 255 255 255 246 - 2 ^ 32 = -10.
Proof.
  split; [|reflexivity].
  apply (read_counts_big_endian [255; 255; 255; 246] 0 255 255 255 246);
    try reflexivity; unfold is_byte; lia.
Defined.

(** ** Counts, scale and period through a tick *)

Section TickState.
Context {hdr : encoder_header}.

Lemma same_but_index_pins_rest x inst :
  same_but_index_pins x inst →
  pin_counts x = pin_counts inst
  ∧ memo_position_reset x = memo_position_reset inst
  ∧ memo_velocity x = memo_velocity inst
  ∧ pin_velocity x = pin_velocity inst
  ∧ pin_velocity_rpm x = pin_velocity_rpm inst.
Proof.
  intros [->|[b ->]]; [done|]. unfold decode_bit. by destruct b.
Qed.

(** The body of the instance loop: raw counts, counts and reset offset. *)
Lemma process_instance_counts recip_dt buf ptr pos inst inst' ptr' pos' raw :
  read_counts buf pos = Some raw →
  process_instance recip_dt buf ptr pos inst = Some (inst', ptr', pos') →
  memo_position_reset inst'
  = (if pin_reset inst then pre_offset_counts (param_x4_mode inst) raw
     else memo_position_reset inst)
  ∧ pin_counts inst'
    = wrap_s32 (pre_offset_counts (param_x4_mode inst) raw
                - memo_position_reset inst').
Proof.
  intros Hraw H. apply process_instance_inv in H as (raw' & Hraw' & _ & Hv).
  rewrite Hraw in Hraw'. injection Hraw' as <-.
  apply update_velocity_frame in Hv
    as (_ & H2 & _ & _ & _ & _ & _ & _ & _ & _ & _ & H12).
  destruct (update_position_scale_frame inst)
    as (_ & _ & Yr & _ & _ & _ & Yx & Ym & _).
  destruct (position_stage_spec raw inst)
    as (_ & Hcounts & _ & Hoffset & _).
  cbv zeta in Hcounts, Hoffset. rewrite Yr, Yx, Ym in Hcounts, Hoffset.
  rewrite H12, H2, Hoffset, Hcounts. unfold pre_offset_counts. done.
Qed.

(** The check of the scale, case by case. *)
Lemma update_position_scale_cases inst :
  let y := update_position_scale inst in
  if (param_position_scale inst =? memo_position_scale inst)%float
  then y = inst
  else
    data_position_scale_recip y = (1 / param_position_scale y)%float
    ∧ memo_position_scale y = param_position_scale y
    ∧ near_zero (param_position_scale y) = false
    ∧ param_position_scale y
      = (if near_zero (param_position_scale inst) then 1%float
         else param_position_scale inst).
Proof.
  unfold update_position_scale.
  destruct (param_position_scale inst =? memo_position_scale inst)%float;
    cbn [negb]; [done|].
  destruct (near_zero (param_position_scale inst)) eqn:Hz; cbn; done.
Qed.

Lemma process_read_period encoder buf pos period encoder' pos' :
  litexcnc_encoder_process_read encoder buf pos period = Some (encoder', pos') →
  instances encoder ≠ [] →
  memo_period encoder' = period
  ∧ data_recip_dt encoder'
    = (if memo_period encoder =? period then data_recip_dt encoder
       else (1 / (double_of_int period * 0.000000001))%float).
Proof.
  intros H Hne. unfold litexcnc_encoder_process_read in H.
  destruct (Z.eqb_spec (num_instances encoder) 0) as [E|_].
  { unfold num_instances in E. destruct (instances encoder); [done|].
    simpl in E. lia. }
  cbv zeta in H.
  destruct (index_pulse_loop _ _ _ _ _) as [[insts1 pos1]|]; [|done].
  cbn [mbind option_bind] in H.
  destruct (instances_loop _ _ _ _ _) as [[[insts2 ptr2] pos2]|]; [|done].
  cbn [mbind option_bind] in H. injection H as <- <-.
  cbn [memo_period data_recip_dt]. unfold update_period.
  destruct (Z.eqb_spec (memo_period encoder) period) as [E|E]; cbn; done.
Qed.

End TickState.

(** X12. Every tick stores the decoded record in [raw_counts], clears the
    [reset] pin and keeps [x4_mode]; the reset offset changes only on a
    tick that finds [reset] set, where it becomes the counts of that tick;
    and [counts] is always the counts of the tick (raw, or raw divided by
    4 toward zero outside x4 mode) minus the reset offset, wrapped to 32
    bits. *)
Theorem counts_follow_reset_offset {hdr : encoder_header}
    encoder buf pos period encoder' pos' k inst inst' raw :
  litexcnc_encoder_process_read encoder buf pos period = Some (encoder', pos') →
  instances encoder !! k = Some inst →
  instances encoder' !! k = Some inst' →
  read_counts buf (record_offset encoder pos k) = Some raw →
  pin_raw_counts inst' = raw
  ∧ pin_reset inst' = false
  ∧ param_x4_mode inst' = param_x4_mode inst
  ∧ memo_position_reset inst'
    = (if pin_reset inst then pre_offset_counts (param_x4_mode inst) raw
       else memo_position_reset inst)
  ∧ pin_counts inst'
    = wrap_s32 (pre_offset_counts (param_x4_mode inst) raw
                - memo_position_reset inst').
Proof.
  intros H Hk Hk' Hraw.
  destruct (process_read_channel _ _ _ _ _ _ _ _ _ H Hk Hk')
    as (x & rdt & a & b & Hsame & Hstep).
  destruct (same_but_index_pins_frame _ _ Hsame)
    as (_ & Freset & _ & _ & _ & Fx4 & _).
  destruct (same_but_index_pins_rest _ _ Hsame) as (_ & Fmemo & _).
  destruct (process_instance_after _ _ _ _ _ _ _ _ _ Hraw Hstep)
    as (H1 & H2 & _ & H4).
  destruct (process_instance_counts _ _ _ _ _ _ _ _ _ Hraw Hstep)
    as (H5 & H6).
  rewrite Freset, Fx4, Fmemo in H5. rewrite Fx4 in H6, H4.
  done.
Qed.

(** Witness of X12: a channel with reset offset 100 reads the raw count -7
    outside x4 mode: counts is [-7 quot 4 - 100 = -101]. *)
Lemma counts_follow_reset_offset_witness :
  let channel := set_memo_position_reset 100 idle_instance in
  let encoder := board [channel; idle_instance] in
  let buf := [0; 0; 0; 0; 255; 255; 255; 249; 0; 0; 0; 0] in
  ∃ encoder' inst',
    litexcnc_encoder_process_read (hdr := header8) encoder buf 0 1000000
    = Some (encoder', 12%nat)
    ∧ instances encoder' !! 0%nat = Some inst'
    ∧ pin_counts inst' = -101
    ∧ pin_raw_counts inst' = -7
    ∧ pin_reset inst' = false
    ∧ param_x4_mode inst' = param_x4_mode channel
    ∧ memo_position_reset inst'
      = (if pin_reset channel
         then pre_offset_counts (param_x4_mode channel) (-7)
         else memo_position_reset channel)
    ∧ pin_counts inst'
      = wrap_s32 (pre_offset_counts (param_x4_mode channel) (-7)
                  - memo_position_reset inst').
Proof.
  intros channel encoder buf. eexists _, _.
  split; [vm_compute; reflexivity|]. split; [vm_compute; reflexivity|].
  split; [reflexivity|].
  eapply (counts_follow_reset_offset (hdr := header8) encoder buf 0 1000000
            _ 12 0 channel).
  - vm_compute. reflexivity.
  - reflexivity.
  - vm_compute. reflexivity.
  - reflexivity.
Defined.

(** X13. The scale of a channel through a tick: when the tick finds
    [position_scale] equal to its memo, scale, memo and reciprocal are
    left as they are; otherwise the memo becomes the scale, the reciprocal
    is [1.0 / scale], and that scale is the one set by the user or, if
    that was within 1e-20 of zero, 1.0 - so a recomputed reciprocal is
    never that of a near-zero scale. *)
Theorem scale_reciprocal_recomputed {hdr : encoder_header}
    encoder buf pos period encoder' pos' k inst inst' :
  litexcnc_encoder_process_read encoder buf pos period = Some (encoder', pos') →
  instances encoder !! k = Some inst →
  instances encoder' !! k = Some inst' →
  if (param_position_scale inst =? memo_position_scale inst)%float
  then
    param_position_scale inst' = param_position_scale inst
    ∧ memo_position_scale inst' = memo_position_scale inst
    ∧ data_position_scale_recip inst' = data_position_scale_recip inst
  else
    data_position_scale_recip inst' = (1 / param_position_scale inst')%float
    ∧ memo_position_scale inst' = param_position_scale inst'
    ∧ near_zero (param_position_scale inst') = false
    ∧ param_position_scale inst'
      = (if near_zero (param_position_scale inst) then 1%float
         else param_position_scale inst).
Proof.
  intros H Hk Hk'.
  destruct (process_read_channel _ _ _ _ _ _ _ _ _ H Hk Hk')
    as (x & rdt & a & b & Hsame & Hstep).
  apply same_but_index_pins_frame in Hsame
    as (_ & _ & _ & _ & Fscale & _ & Frecip & Fmemo).
  apply process_instance_scale in Hstep as (Hs & Hm & Hr & _).
  pose proof (update_position_scale_cases x) as Hcases. cbv zeta in Hcases.
  rewrite Fscale, Fmemo in Hcases.
  destruct (param_position_scale inst =? memo_position_scale inst)%float.
  - rewrite Hcases in Hs, Hm, Hr. repeat split; congruence.
  - destruct Hcases as (C1 & C2 & C3 & C4).
    rewrite Hs, Hm, Hr. done.
Qed.

(** Witness of X13: the scale of an idle channel (memo 1.0) is set to
    0.25; the tick leaves the reciprocal 4. *)
Lemma scale_reciprocal_recomputed_witness :
  let channel := set_param_position_scale 0.25%float idle_instance in
  let encoder := board [channel; idle_instance] in
  ∃ encoder' inst',
    litexcnc_encoder_process_read (hdr := header8) encoder (replicate 12 0)
      0 1000000 = Some (encoder', 12%nat)
    ∧ instances encoder' !! 0%nat = Some inst'
    ∧ data_position_scale_recip inst' = 4%float
    ∧ if (param_position_scale channel =? memo_position_scale channel)%float
      then
        param_position_scale inst' = param_position_scale channel
        ∧ memo_position_scale inst' = memo_position_scale channel
        ∧ data_position_scale_recip inst' = data_position_scale_recip channel
      else
        data_position_scale_recip inst'
        = (1 / param_position_scale inst')%float
        ∧ memo_position_scale inst' = param_position_scale inst'
        ∧ near_zero (param_position_scale inst') = false
        ∧ param_position_scale inst'
          = (if near_zero (param_position_scale channel) then 1%float
             else param_position_scale channel).
Proof.
  intros channel encoder. eexists _, _.
  split; [vm_compute; reflexivity|]. split; [vm_compute; reflexivity|].
  split; [reflexivity|].
  eapply (scale_reciprocal_recomputed (hdr := header8) encoder
            (replicate 12 0) 0 1000000 _ 12 0 channel).
  - vm_compute. reflexivity.
  - reflexivity.
  - vm_compute. reflexivity.
Defined.

(** X14. The period memo: after a tick of a module with at least one
    channel the memorised period is the period of that tick, and
    [recip_dt] is [1.0 / (period * 1e-9)] if the period differs from the
    memorised one and is left as it was otherwise. So [recip_dt] matches
    the memorised period after the tick whenever the period changed or it
    matched before. *)
Theorem period_memo_kept {hdr : encoder_header}
    encoder buf pos period encoder' pos' :
  litexcnc_encoder_process_read encoder buf pos period = Some (encoder', pos') →
  instances encoder ≠ [] →
  memo_period encoder' = period
  ∧ data_recip_dt encoder'
    = (if memo_period encoder =? period then data_recip_dt encoder
       else (1 / (double_of_int period * 0.000000001))%float)
  ∧ (memo_period encoder ≠ period
     ∨ data_recip_dt encoder
       = (1 / (double_of_int (memo_period encoder) * 0.000000001))%float →
     data_recip_dt encoder'
     = (1 / (double_of_int (memo_period encoder') * 0.000000001))%float).
Proof.
  intros H Hne.
  destruct (process_read_period _ _ _ _ _ _ H Hne) as [Hp Hr].
  split; [done|]. split; [done|].
  rewrite Hp, Hr. intros [Hchanged|Hok].
  - destruct (Z.eqb_spec (memo_period encoder) period); [done|reflexivity].
  - destruct (Z.eqb_spec (memo_period encoder) period) as [E|E];
      [by rewrite <- E|reflexivity].
Qed.

(** Witness of X14: a module memorising 1 ms is run with a period of
    2 ms; [recip_dt] becomes 500. *)
Lemma period_memo_kept_witness :
  let encoder := board [idle_instance] in
  ∃ encoder',
    litexcnc_encoder_process_read (hdr := header8) encoder (replicate 8 0)
      0 2000000 = Some (encoder', 8%nat)
    ∧ data_recip_dt encoder' = 500%float
    ∧ memo_period encoder' = 2000000
    ∧ data_recip_dt encoder'
      = (if memo_period encoder =? 2000000 then data_recip_dt encoder
         else (1 / (double_of_int 2000000 * 0.000000001))%float)
    ∧ (memo_period encoder ≠ 2000000
       ∨ data_recip_dt encoder
         = (1 / (double_of_int (memo_period encoder) * 0.000000001))%float →
       data_recip_dt encoder'
       = (1 / (double_of_int (memo_period encoder') * 0.000000001))%float).
Proof.
  intros encoder. eexists.
  split; [vm_compute; reflexivity|]. split; [vm_compute; reflexivity|].
  eapply (period_memo_kept (hdr := header8) encoder (replicate 8 0) 0
            2000000 _ 8).
  - vm_compute. reflexivity.
  - discriminate.
Defined.

(** ** The velocity history *)

Section VelocityHistory.
Context {hdr : encoder_header}.

Lemma process_instance_velocity recip_dt buf ptr pos inst inst' ptr' pos' :
  process_instance recip_dt buf ptr pos inst = Some (inst', ptr', pos') →
  pin_index_pulse inst = false →
  (ptr < length (memo_velocity inst))%nat
  ∧ memo_velocity inst'
    = <[ptr := ((pin_position inst' - to_single (pin_position inst))
                * recip_dt)%float]> (memo_velocity inst)
  ∧ (∃ average,
       average_loop LITEXCNC_ENCODER_POSITION_AVERAGE_SIZE 0
         (memo_velocity inst') 0%float = Some average
       ∧ pin_velocity inst'
         = (average * LITEXCNC_ENCODER_POSITION_AVERAGE_RECIP)%float)
  ∧ pin_velocity_rpm inst' = (pin_velocity inst' * 60)%float.
Proof.
  intros H Hp. apply process_instance_inv in H as (raw & _ & _ & Hv).
  destruct (position_stage_frame raw inst) as (Sp & _ & _ & Svel & _).
  destruct (position_stage_spec raw inst)
    as (_ & _ & _ & _ & _ & _ & _ & Hold & _).
  destruct (update_position_scale_frame inst) as (_ & _ & _ & _ & Ypos & _).
  rewrite Hold, Ypos in Hv.
  unfold update_velocity in Hv. rewrite Sp, Hp in Hv. cbn [negb] in Hv.
  rewrite Svel in Hv.
  destruct (Nat.ltb_spec ptr (length (memo_velocity inst))) as [Hlt|]; [|done].
  cbn [memo_velocity set_memo_velocity] in Hv.
  destruct (average_loop _ _ _ _) as [average|] eqn:Havg; [|done].
  cbn [mbind option_bind] in Hv. injection Hv as <- <-.
  cbn. split; [done|]. split; [done|]. split; [|done].
  by exists average.
Qed.

Lemma process_read_channel_dt encoder buf pos period encoder' pos' k
    inst inst' :
  litexcnc_encoder_process_read encoder buf pos period = Some (encoder', pos') →
  instances encoder !! k = Some inst →
  instances encoder' !! k = Some inst' →
  ∃ x ptr_k ptr_k',
    same_but_index_pins x inst
    ∧ process_instance (data_recip_dt encoder') buf ptr_k
        (record_offset encoder pos k) x
      = Some (inst', ptr_k', (record_offset encoder pos k + 4)%nat).
Proof.
  intros H Hk Hk'.
  assert (instances encoder ≠ []) as Hne.
  { intros E. rewrite E in Hk. by rewrite lookup_nil in Hk. }
  destruct (process_read_period _ _ _ _ _ _ H Hne) as [_ Hdt].
  assert (data_recip_dt encoder' = data_recip_dt (update_period period encoder))
    as ->.
  { rewrite Hdt. unfold update_period.
    by destruct (memo_period encoder =? period). }
  apply process_read_inv in H as (insts1 & pos1 & H1 & H2); [|done].
  apply index_pulse_loop_bytes in H1 as (-> & _ & Hdec).
  rewrite register_bits_bytes, div_bytes in H2.
  specialize (Hdec k). rewrite Hk in Hdec.
  assert (∃ x, insts1 !! k = Some x ∧ same_but_index_pins x inst)
    as (x & Hx & Hsame).
  { destruct (_ && _).
    - eexists. split; [exact Hdec|]. right. eauto.
    - exists inst. split; [done|]. by left. }
  destruct (instances_loop_channel _ _ _ _ _ _ _ _ H2 k x Hx)
    as (x' & a & b & Hstep & Hx').
  rewrite Hk' in Hx'. injection Hx' as <-.
  by exists x, a, b.
Qed.

End VelocityHistory.

(** X15. On a tick without index pulse a channel's velocity history
    changes in exactly one slot, inside the array: the slot receives
    [(position - position_old) * recip_dt], where [position_old] is the
    position before the tick rounded to single precision; [velocity] is
    the sum of the first N entries of the new history (accumulated in
    single precision) times the averaging constant, and [velocity_rpm] is
    [velocity * 60]. *)
Theorem velocity_history_store {hdr : encoder_header}
    encoder buf pos period encoder' pos' k inst inst' :
  litexcnc_encoder_process_read encoder buf pos period = Some (encoder', pos') →
  instances encoder !! k = Some inst →
  instances encoder' !! k = Some inst' →
  pin_index_pulse inst' = false →
  ∃ slot average,
    (slot < length (memo_velocity inst))%nat
    ∧ memo_velocity inst'
      = <[slot := ((pin_position inst' - to_single (pin_position inst))
                   * data_recip_dt encoder')%float]> (memo_velocity inst)
    ∧ average_loop LITEXCNC_ENCODER_POSITION_AVERAGE_SIZE 0
        (memo_velocity inst') 0%float = Some average
    ∧ pin_velocity inst'
      = (average * LITEXCNC_ENCODER_POSITION_AVERAGE_RECIP)%float
    ∧ pin_velocity_rpm inst' = (pin_velocity inst' * 60)%float.
Proof.
  intros H Hk Hk' Hpulse.
  destruct (process_read_channel_dt _ _ _ _ _ _ _ _ _ H Hk Hk')
    as (x & a & b & Hsame & Hstep).
  destruct (same_but_index_pins_frame _ _ Hsame) as (_ & _ & Fpos & _).
  destruct (same_but_index_pins_rest _ _ Hsame) as (_ & _ & Fvel & _).
  pose proof (process_instance_index_pins _ _ _ _ _ _ _ _ Hstep) as (Hp & _).
  destruct (process_instance_velocity _ _ _ _ _ _ _ _ Hstep)
    as (Hlt & Hstore & (average & Havg & Hv) & Hrpm); [congruence|].
  rewrite Fpos, Fvel in Hstore. rewrite Fvel in Hlt.
  by exists a, average.
Qed.

(** Witness of X15: an idle channel at position 0 reads the counts 40
    (position 10) at a period of 1 ms: the sample is 10000, the average
    over eight entries 1250 and the speed 75000 rpm. *)
Lemma velocity_history_store_witness :
  let encoder := board [idle_instance; idle_instance] in
  let buf := [0; 0; 0; 0; 0; 0; 0; 40; 0; 0; 0; 0] in
  ∃ encoder' inst',
    litexcnc_encoder_process_read (hdr := header8) encoder buf 0 1000000
    = Some (encoder', 12%nat)
    ∧ instances encoder' !! 0%nat = Some inst'
    ∧ memo_velocity inst' !! 0%nat = Some 10000%float
    ∧ pin_velocity inst' = 1250%float
    ∧ pin_velocity_rpm inst' = 75000%float
    ∧ ∃ slot average,
        (slot < length (memo_velocity idle_instance))%nat
        ∧ memo_velocity inst'
          = <[slot := ((pin_position inst'
                        - to_single (pin_position idle_instance))
                       * data_recip_dt encoder')%float]>
              (memo_velocity idle_instance)
        ∧ average_loop (@LITEXCNC_ENCODER_POSITION_AVERAGE_SIZE header8)
            0 (memo_velocity inst') 0%float = Some average
        ∧ pin_velocity inst'
          = (average * @LITEXCNC_ENCODER_POSITION_AVERAGE_RECIP header8)%float
        ∧ pin_velocity_rpm inst' = (pin_velocity inst' * 60)%float.
Proof.
  intros encoder buf. eexists _, _.
  split; [vm_compute; reflexivity|]. split; [vm_compute; reflexivity|].
  split; [reflexivity|]. split; [reflexivity|]. split; [reflexivity|].
  eapply (velocity_history_store (hdr := header8) encoder buf 0 1000000
            _ 12 0 idle_instance).
  - vm_compute. reflexivity.
  - reflexivity.
  - vm_compute. reflexivity.
  - reflexivity.
Defined.

(** ** The round trip through a shared register *)

(** What [prepare_write] leaves in a zeroed buffer of the required size:
    the flags of every channel before the last, each at its bit. *)
Lemma prepare_write_zeroed sender :
  instances sender ≠ [] →
  let W := register_bits sender in
  ∃ buf' pos',
    litexcnc_encoder_prepare_write sender
      (replicate (Z.to_nat (required_write_buffer sender)) 0) 0
    = Some (buf', pos')
    ∧ (2 * W = 8 * length buf')%nat
    ∧ ∀ k, (S k < length (instances sender))%nat →
        msb_bit buf' (W - 1 - k)
        = pin_at pin_index_enable (instances sender) k
        ∧ msb_bit buf' (W + W - 1 - k)
          = pin_at pin_index_pulse (instances sender) k.
Proof.
  intros Hne W.
  pose proof (single_dword_buffer_nonneg sender) as Hs.
  pose proof (register_bits_bytes sender) as HW. fold W in HW.
  pose proof (register_bits_ge sender) as Hge. fold W in Hge.
  destruct (prepare_write_total sender
              (replicate (Z.to_nat (required_write_buffer sender)) 0) 0)
    as [[buf' pos'] H]; [rewrite length_replicate; lia|].
  exists buf', pos'. split; [done|].
  destruct (prepare_write_spec _ _ _ _ _ H Hne) as (_ & Hlen & Hbits).
  fold W in Hbits. rewrite length_replicate in Hlen.
  split; [unfold required_write_buffer in Hlen; lia|].
  intros k Hk. rewrite !Hbits, !msb_bit_zeros. cbn [orb].
  replace (8 * 0)%nat with 0%nat in * by lia. cbn [Nat.add].
  assert (∀ q, loop_hit q W (length (instances sender)) (q + W - 1 - k) = true)
    as Hhit.
  { intros q. unfold loop_hit.
    replace (q + W - (q + W - 1 - k))%nat with (S k) by lia.
    destruct (Nat.leb_spec q (q + W - 1 - k)); [|lia].
    destruct (Nat.ltb_spec (q + W - 1 - k) (q + W)); [|lia].
    destruct (Nat.ltb_spec (S k) (length (instances sender))); [done|lia]. }
  assert (loop_hit W W (length (instances sender)) (W - 1 - k) = false)
    as Hoff1.
  { unfold loop_hit. destruct (Nat.leb_spec W (W - 1 - k)); [lia|done]. }
  assert (loop_hit 0 W (length (instances sender)) (W + W - 1 - k) = false)
    as Hoff2.
  { unfold loop_hit. cbn [Nat.add].
    destruct (Nat.ltb_spec (W + W - 1 - k) W); [lia|].
    by rewrite andb_false_r. }
  pose proof (Hhit 0%nat) as Hhit0. cbn [Nat.add] in Hhit0.
  split.
  - rewrite Hhit0, Hoff1. cbn [andb orb].
    rewrite orb_false_r. f_equal. lia.
  - rewrite Hoff2, (Hhit W). cbn [andb orb]. f_equal. lia.
Qed.

(** What the index-pulse loop decodes into idle channels. *)
Lemma index_pulse_loop_idle buf p0 n :
  (8 * p0 + Z.to_nat (single_dword_buffer (board (replicate n idle_instance)))
            * 8 ≤ 8 * length buf)%nat →
  let W := register_bits (board (replicate n idle_instance)) in
  ∃ insts pos',
    index_pulse_loop W 128 buf p0 (replicate n idle_instance)
    = Some (insts, pos')
    ∧ ∀ k, pin_index_pulse <$> insts !! k
           = if (S k <? n)%nat then Some (msb_bit buf (8 * p0 + W - 1 - k))
             else if (k <? n)%nat then Some false else None.
Proof.
  intros Hlen W.
  pose proof (register_bits_bytes (board (replicate n idle_instance))) as HW.
  pose proof (register_bits_ge (board (replicate n idle_instance))) as Hge.
  fold W in HW, Hge. cbn [instances board] in Hge.
  rewrite length_replicate in Hge.
  destruct (index_pulse_loop_total buf W (8 * p0) (replicate n idle_instance))
    as [[insts pos'] H]; [lia|].
  rewrite mask_of_byte, div_byte in H.
  exists insts, pos'. split; [done|].
  apply index_pulse_loop_bytes in H as (_ & _ & Hdec).
  intros k. rewrite Hdec, length_replicate.
  destruct (Nat.ltb_spec (S k) n) as [Hk|Hk].
  - destruct (Nat.ltb_spec k W); [|lia]. cbn [andb].
    rewrite lookup_replicate_2 by lia. cbn.
    by destruct (msb_bit buf _).
  - rewrite andb_false_r.
    destruct (Nat.ltb_spec k n).
    + by rewrite lookup_replicate_2 by lia.
    + rewrite lookup_ge_None_2; [done|]. rewrite length_replicate. lia.
Qed.

(** X16. A round trip through either outgoing register recovers the flag
    of every channel but the last: packing any non-empty flag vector with
    [prepare_write] into a zeroed buffer of [required_write_buffer] bytes
    and unpacking that register with the index-pulse loop of
    [process_read] returns the vector with its last flag replaced by
    false. *)
Theorem round_trip_all_but_last (reg : bool) (flags : list bool) :
  flags ≠ [] →
  register_round_trip reg flags
  = Some (take (length flags - 1) flags ++ [false]).
Proof.
  intros Hne. unfold register_round_trip.
  set (mk := λ f : bool, if reg then set_pin_index_pulse f idle_instance
                         else set_pin_index_enable f idle_instance).
  set (sender := board (map mk flags)).
  set (n := length flags).
  assert (0 < n)%nat as Hn by (subst n; destruct flags; [done|simpl; lia]).
  assert (length (instances sender) = n) as Hlen_s
    by (unfold sender; cbn [instances board]; apply length_map).
  assert (instances sender ≠ []) as Hne_s.
  { intros E. rewrite E in Hlen_s. simpl in Hlen_s. lia. }
  assert (register_bits (board (replicate n idle_instance))
          = register_bits sender) as HWeq.
  { apply register_bits_length. cbn [instances board].
    by rewrite length_replicate. }
  assert (single_dword_buffer (board (replicate n idle_instance))
          = single_dword_buffer sender) as HBeq.
  { unfold single_dword_buffer, num_instances. cbn [instances board].
    fold (instances sender). by rewrite length_replicate, Hlen_s. }
  pose proof (register_bits_bytes sender) as HW.
  pose proof (register_bits_ge sender) as Hge. rewrite Hlen_s in Hge.
  destruct (prepare_write_zeroed sender Hne_s)
    as (buf' & pos' & -> & Hbuf & Hbits).
  cbn [mbind option_bind]. rewrite Hlen_s in Hbits.
  set (p0 := if reg then Z.to_nat (single_dword_buffer sender) else 0%nat).
  assert (8 * p0 = if reg then register_bits sender else 0)%nat as Hp0.
  { unfold p0. destruct reg; lia. }
  destruct (index_pulse_loop_idle buf' p0 n) as (insts & pos2 & Hloop & Hdec).
  { rewrite HBeq. destruct reg; lia. }
  rewrite HWeq in Hdec.
  change (instances (board (replicate n idle_instance)))
    with (replicate n idle_instance).
  rewrite Hloop. cbn [mbind option_bind].
  f_equal. apply list_eq. intros k.
  change (map pin_index_pulse insts) with (pin_index_pulse <$> insts).
  rewrite list_lookup_fmap, Hdec.
  assert (length (take (n - 1) flags) = (n - 1)%nat) as Htake
    by (rewrite length_take; fold n; lia).
  destruct (Nat.ltb_spec (S k) n) as [Hk|Hk].
  - rewrite lookup_app_l by lia. rewrite lookup_take_lt by lia.
    destruct (lookup_lt_is_Some_2 flags k) as [f Hf]; [fold n; lia|].
    rewrite Hf. f_equal.
    assert (∀ pin, pin_at pin (instances sender) k = pin (mk f)) as Hpin.
    { intros pin. unfold pin_at, sender. cbn [instances board].
      change (map mk flags) with (mk <$> flags).
      by rewrite list_lookup_fmap, Hf. }
    destruct (Hbits k Hk) as [He Hp]. rewrite !Hpin in He, Hp.
    rewrite Hp0. unfold mk in He, Hp. destruct reg.
    + rewrite Hp. by destruct f.
    + cbn [Nat.add]. rewrite He. by destruct f.
  - destruct (Nat.ltb_spec k n).
    + assert (k = n - 1)%nat as -> by lia.
      rewrite lookup_app_r by lia. rewrite Htake, Nat.sub_diag. done.
    + symmetry. apply lookup_ge_None. rewrite length_app, Htake. simpl. lia.
Qed.

(** Witness of X16: four flags through the second register. *)
Lemma round_trip_all_but_last_witness :
  register_round_trip true [true; false; true; true]
  = Some (take (length [true; false; true; true] - 1)
            [true; false; true; true] ++ [false]).
Proof. by apply (round_trip_all_but_last true [true; false; true; true]). Defined.

(** ** The read buffer size, incremental tracking and the shared cursor *)

(** X17. A read buffer that holds exactly [required_read_buffer] bytes
    from the cursor on is too short for [process_read] whenever the module
    has more channels than the file-scope counter of module instances
    says: the tick then reads outside the buffer. *)
Theorem read_buffer_too_short {hdr : encoder_header}
    static_num_instances encoder buf pos period :
  0 <= static_num_instances < num_instances encoder →
  length buf
  = (pos + Z.to_nat (required_read_buffer static_num_instances encoder))%nat →
  litexcnc_encoder_process_read encoder buf pos period = None.
Proof.
  intros Hg Hlen.
  destruct (litexcnc_encoder_process_read encoder buf pos period)
    as [[encoder' pos']|] eqn:H; [exfalso|done].
  assert (instances encoder ≠ []) as Hne.
  { intros E. unfold num_instances in Hg. rewrite E in Hg. simpl in Hg. lia. }
  apply process_read_inv in H as (insts1 & pos1 & H1 & H2); [|done].
  apply index_pulse_loop_bytes in H1 as (-> & Hlen1 & _).
  rewrite register_bits_bytes, div_bytes in H2.
  apply instances_loop_cursor in H2 as (-> & Hbound).
  assert (insts1 ≠ []) as Hne1.
  { intros E. rewrite E in Hlen1. destruct (instances encoder); done. }
  specialize (Hbound Hne1).
  pose proof (single_dword_buffer_nonneg encoder) as Hs.
  unfold required_read_buffer, sizeof_read_data, num_instances in *.
  lia.
Qed.

(** Witness of X17: one module instance, two channels, eight bytes. *)
Lemma read_buffer_too_short_witness :
  litexcnc_encoder_process_read (hdr := header8)
    (board [idle_instance; idle_instance]) (replicate 8 0) 0 1000000 = None.
Proof.
  apply (read_buffer_too_short (hdr := header8) 1
           (board [idle_instance; idle_instance]) (replicate 8 0) 0 1000000).
  - vm_compute. split; [discriminate|reflexivity].
  - reflexivity.
Defined.

Lemma rollover_in_range raw counts_old x4_mode overflow :
  INT_MIN <= raw - counts_old <= INT_MAX →
  rollover raw counts_old x4_mode overflow = (overflow, raw - counts_old).
Proof.
  intros [H1 H2]. unfold rollover.
  rewrite (proj2 (Z.ltb_ge _ _)) by lia. rewrite Z.gtb_ltb.
  rewrite (proj2 (Z.ltb_ge _ _)) by lia. reflexivity.
Qed.

(** X18. Once [overflow_occurred] is set, a tick without index pulse and
    without reset whose raw difference stays in the [int32_t] range keeps
    the flag and adds the raw difference times the scale reciprocal to the
    position; the difference is not divided by 4, whatever [x4_mode]
    is. *)
Theorem incremental_tracking_adds_raw_difference {hdr : encoder_header}
    encoder buf pos period encoder' pos' k inst inst' raw :
  litexcnc_encoder_process_read encoder buf pos period = Some (encoder', pos') →
  instances encoder !! k = Some inst →
  instances encoder' !! k = Some inst' →
  read_counts buf (record_offset encoder pos k) = Some raw →
  pin_index_pulse inst' = false →
  pin_reset inst = false →
  pin_overflow_occurred inst = true →
  INT_MIN <= raw - pin_raw_counts inst <= INT_MAX →
  pin_overflow_occurred inst' = true
  ∧ pin_position inst'
    = (pin_position inst
       + double_of_int (raw - pin_raw_counts inst)
         * data_position_scale_recip inst')%float.
Proof.
  intros H Hk Hk' Hraw Hpulse Hreset Hov Hrange.
  destruct (process_read_channel _ _ _ _ _ _ _ _ _ H Hk Hk')
    as (x & rdt & a & b & Hsame & Hstep).
  apply same_but_index_pins_frame in Hsame
    as (Fraw & Freset & Fpos & Fov & _).
  pose proof (process_instance_index_pins _ _ _ _ _ _ _ _ Hstep) as (Hp & _).
  assert (pin_index_pulse x = false) as Hx1 by congruence.
  assert (pin_reset x = false) as Hx2 by congruence.
  pose proof (process_instance_no_pulse _ _ _ _ _ _ _ _ _ Hraw
                Hx1 Hx2 Hstep) as Hr.
  cbv zeta in Hr. rewrite Fraw, Fov, Fpos, Hov in Hr.
  rewrite rollover_in_range in Hr by done. exact Hr.
Qed.

(** Witness of X18: a channel outside x4 mode, in overflow mode at raw
    count 100 and position 5, reads 108: the position becomes 13, not 7. *)
Lemma incremental_tracking_adds_raw_difference_witness :
  let channel :=
    set_pin_position 5%float
      (set_pin_overflow_occurred true
         (set_pin_raw_counts 100 idle_instance)) in
  let encoder := board [channel; idle_instance] in
  let buf := [0; 0; 0; 0; 0; 0; 0; 108; 0; 0; 0; 0] in
  ∃ encoder' inst',
    litexcnc_encoder_process_read (hdr := header8) encoder buf 0 1000000
    = Some (encoder', 12%nat)
    ∧ instances encoder' !! 0%nat = Some inst'
    ∧ param_x4_mode inst' = false
    ∧ pin_position inst' = 13%float
    ∧ pin_overflow_occurred inst' = true
    ∧ pin_position inst'
      = (pin_position channel
         + double_of_int (108 - pin_raw_counts channel)
           * data_position_scale_recip inst')%float.
Proof.
  intros channel encoder buf. eexists _, _.
  split; [vm_compute; reflexivity|]. split; [vm_compute; reflexivity|].
  split; [reflexivity|]. split; [reflexivity|].
  eapply (incremental_tracking_adds_raw_difference (hdr := header8) encoder
            buf 0 1000000 _ 12 0 channel).
  - vm_compute. reflexivity.
  - reflexivity.
  - vm_compute. reflexivity.
  - reflexivity.
  - reflexivity.
  - reflexivity.
  - reflexivity.
  - vm_compute. split; discriminate.
Defined.

Section SharedCursor.
Context {hdr : encoder_header}.

Lemma process_instance_pointer recip_dt buf ptr pos inst inst' ptr' pos' :
  process_instance recip_dt buf ptr pos inst = Some (inst', ptr', pos') →
  length (memo_velocity inst) = LITEXCNC_ENCODER_POSITION_AVERAGE_SIZE →
  ptr' = (if pin_index_pulse inst' then ptr else S ptr).
Proof.
  intros H Hlen.
  pose proof (process_instance_index_pins _ _ _ _ _ _ _ _ H) as (Hp & _).
  rewrite Hp. destruct (pin_index_pulse inst) eqn:Hpulse.
  - by apply process_instance_index_pulse in H as (_ & _ & _ & _ & _ & ->).
  - pose proof H as H1. apply process_instance_velocity in H1 as (Hlt & _);
      [|done].
    pose proof H as H2. apply process_instance_inv in H2 as (raw & Hraw & _).
    destruct (process_instance_in_bounds recip_dt buf ptr pos inst raw)
      as (i2 & Hstep & _); [done|done|done|lia|].
    rewrite Hstep in H. injection H as _ <- _.
    unfold next_velocity_pointer.
    destruct (Nat.leb_spec LITEXCNC_ENCODER_POSITION_AVERAGE_SIZE ptr);
      [exfalso; lia|done].
Qed.

Lemma process_instance_history_length recip_dt buf ptr pos inst inst' ptr' pos' :
  process_instance recip_dt buf ptr pos inst = Some (inst', ptr', pos') →
  length (memo_velocity inst') = length (memo_velocity inst).
Proof.
  intros H. destruct (pin_index_pulse inst) eqn:Hpulse.
  - apply process_instance_index_pulse in H as (_ & _ & -> & _); done.
  - apply process_instance_velocity in H as (_ & -> & _); [|done].
    apply length_insert.
Qed.

Lemma instances_loop_pointer recip_dt buf insts : ∀ ptr pos insts' ptr' pos',
  instances_loop recip_dt buf ptr pos insts = Some (insts', ptr', pos') →
  Forall (λ inst, length (memo_velocity inst)
                  = LITEXCNC_ENCODER_POSITION_AVERAGE_SIZE) insts →
  ptr' = (ptr + length (List.filter (λ inst, negb (pin_index_pulse inst))
                          insts'))%nat
  ∧ Forall (λ inst, length (memo_velocity inst)
                    = LITEXCNC_ENCODER_POSITION_AVERAGE_SIZE) insts'.
Proof.
  induction insts as [|x rest IH]; intros ptr pos insts' ptr' pos' H Hvel.
  - simpl in H. injection H as <- <- <-. simpl. split; [lia|done].
  - cbn [instances_loop] in H.
    destruct (process_instance recip_dt buf ptr pos x)
      as [[[x' ptr1] pos1]|] eqn:Hx; [|done].
    cbn [mbind option_bind] in H.
    destruct (instances_loop recip_dt buf ptr1 pos1 rest)
      as [[[rest' ptr2] pos2]|] eqn:Hrest; [|done].
    cbn [mbind option_bind] in H. injection H as <- <- <-.
    apply Forall_cons in Hvel as [Hx0 Hrest0].
    apply IH in Hrest as (-> & Hrest'); [|done].
    pose proof (process_instance_pointer _ _ _ _ _ _ _ _ Hx Hx0) as ->.
    pose proof (process_instance_history_length _ _ _ _ _ _ _ _ Hx) as Hl.
    split; [|apply Forall_cons; split; [congruence|done]].
    cbn [List.filter]. destruct (pin_index_pulse x'); cbn [negb length]; lia.
Qed.

End SharedCursor.

(** X19. The velocity pointer is shared by the channels and stepped inside
    the loop over them: when every history has the size of the header and
    the tick returns, the pointer has advanced by the number of channels
    that had no index pulse on that tick, and every history still has that
    size. *)
Theorem velocity_pointer_steps_per_channel {hdr : encoder_header}
    encoder buf pos period encoder' pos' :
  litexcnc_encoder_process_read encoder buf pos period = Some (encoder', pos') →
  Forall (λ inst, length (memo_velocity inst)
                  = LITEXCNC_ENCODER_POSITION_AVERAGE_SIZE)
    (instances encoder) →
  memo_velocity_pointer encoder'
  = (memo_velocity_pointer encoder
     + length (List.filter (λ inst, negb (pin_index_pulse inst))
                 (instances encoder')))%nat
  ∧ Forall (λ inst, length (memo_velocity inst)
                    = LITEXCNC_ENCODER_POSITION_AVERAGE_SIZE)
      (instances encoder').
Proof.
  intros H Hvel.
  destruct (decide (instances encoder = [])) as [E|Hne].
  - unfold litexcnc_encoder_process_read, num_instances in H.
    rewrite E in H. simpl in H. injection H as <- <-.
    rewrite E. simpl. split; [lia|done].
  - apply process_read_inv in H as (insts1 & pos1 & H1 & H2); [|done].
    apply index_pulse_loop_bytes in H1 as (_ & _ & Hdec).
    apply (instances_loop_pointer _ _ _ _ _ _ _ _ H2).
    apply Forall_lookup. intros k x Hx. rewrite Hdec in Hx.
    rewrite Forall_lookup in Hvel.
    destruct (instances encoder !! k) as [inst|] eqn:Hk.
    + specialize (Hvel k inst Hk). cbn beta in Hvel.
      destruct (_ && _); simpl in Hx; injection Hx as <-; [|done].
      unfold decode_bit. by destruct (msb_bit _ _).
    + by destruct (_ && _).
Qed.

(** Witness of X19: three channels, the first with an index pulse; the
    pointer moves from 0 to 2. *)
Lemma velocity_pointer_steps_per_channel_witness :
  let encoder := board [idle_instance; idle_instance; idle_instance] in
  let buf := [0; 0; 0; 1; 0; 0; 0; 0; 0; 0; 0; 0; 0; 0; 0; 0] in
  ∃ encoder',
    litexcnc_encoder_process_read (hdr := header8) encoder buf 0 1000000
    = Some (encoder', 16%nat)
    ∧ memo_velocity_pointer encoder' = 2%nat
    ∧ memo_velocity_pointer encoder'
      = (memo_velocity_pointer encoder
         + length (List.filter (λ inst, negb (pin_index_pulse inst))
                     (instances encoder')))%nat
    ∧ Forall (λ inst, length (memo_velocity inst) = 8%nat)
        (instances encoder').
Proof.
  intros encoder buf. eexists.
  split; [vm_compute; reflexivity|]. split; [reflexivity|].
  eapply (velocity_pointer_steps_per_channel (hdr := header8) encoder buf 0
            1000000 _ 16).
  - vm_compute. reflexivity.
  - repeat constructor.
Defined.
